(** * QtMultimedia output plugin (src/qtaudio/qtaudio.cc)

    A shallow embedding of the plugin's global state and of its eleven
    entry points, followed by the properties of the buffer sizing, the
    playback clock, the transport controls and the volume settings.

    Conventions of the embedding:
    - [int], [int64_t] and [unsigned int] values are integers of [Z].  Signed
      arithmetic that leaves the range of its type, division by zero, the
      dereference of a null pointer and a read through a pointer to an
      object whose lifetime has ended have no defined behaviour in C++: the
      model stops with [Undefined] there.  Unsigned arithmetic and narrowing
      conversions wrap around, written out with [mod].
    - [/] and [%] on integers truncate towards zero ([Z.quot], [Z.rem]).
    - QtMultimedia, the settings store of libaudcore, the error dialog and
      the pthread primitives are collaborators outside the plugin.  The
      device classes are an interface ([QtMultimedia]); every call made to a
      collaborator is appended to the [calls] log of the state, in program
      order.
    - [float] expressions are kept as syntax ([float_expr]); they are not
      evaluated.
    - [AUDDBG] only prints a debugging line and is left out.  Where C++
      leaves the order of two device readings in one expression open, the
      model reads the left operand first. *)

From Stdlib Require Import ZArith Lia List String Strings.Byte.
From stdpp Require Import base option list strings gmap.

Local Open Scope Z_scope.

(** ** Machine integers *)

Definition INT_MIN : Z := - 2 ^ 31.
Definition INT_MAX : Z := 2 ^ 31 - 1.
Definition INT64_MIN : Z := - 2 ^ 63.
Definition INT64_MAX : Z := 2 ^ 63 - 1.

Definition int_range (z : Z) : Prop := INT_MIN <= z <= INT_MAX.
Definition int64_range (z : Z) : Prop := INT64_MIN <= z <= INT64_MAX.

Definition fits_int (z : Z) : bool := (INT_MIN <=? z) && (z <=? INT_MAX).
Definition fits_int64 (z : Z) : bool := (INT64_MIN <=? z) && (z <=? INT64_MAX).

(** The result of a signed operation, when the type can hold it. *)
Definition as_int (z : Z) : option Z := if fits_int z then Some z else None.
Definition as_int64 (z : Z) : option Z := if fits_int64 z then Some z else None.

Definition int_add (a b : Z) : option Z := as_int (a + b).
Definition int_sub (a b : Z) : option Z := as_int (a - b).
Definition int_mul (a b : Z) : option Z := as_int (a * b).
Definition int_div (a b : Z) : option Z :=
  if b =? 0 then None else as_int (a ÷ b).

Definition int64_add (a b : Z) : option Z := as_int64 (a + b).
Definition int64_sub (a b : Z) : option Z := as_int64 (a - b).
Definition int64_mul (a b : Z) : option Z := as_int64 (a * b).
Definition int64_div (a b : Z) : option Z :=
  if b =? 0 then None else as_int64 (a ÷ b).

(** [unsigned int] arithmetic is modulo 2^32. *)
Definition uint (z : Z) : Z := z mod 2 ^ 32.
Definition uint_add (a b : Z) : Z := uint (a + b).
Definition uint_div (a b : Z) : Z := uint (a ÷ b).
Definition uint_rem (a b : Z) : Z := uint (Z.rem a b).

(** Conversion to [int] of a value of a wider or unsigned type: the value
    modulo 2^32, read as two's complement. *)
Definition to_int (z : Z) : Z := (z + 2 ^ 31) mod 2 ^ 32 - 2 ^ 31.

(** ** Audio formats *)

(** The sample format codes of libaudcore's [audio.h] that the table names.
    The header is not part of the plugin, so the numbering is a parameter. *)
Class audio_formats := {
  FMT_S16_LE : Z;
  FMT_S16_BE : Z;
  FMT_U16_LE : Z;
  FMT_U16_BE : Z;
  FMT_S32_LE : Z;
  FMT_S32_BE : Z;
  FMT_U32_LE : Z;
  FMT_U32_BE : Z;
  FMT_FLOAT : Z
}.

Module QAudioFormat.
Inductive SampleType := SignedInt | UnSignedInt | Float.
Inductive Endian := LittleEndian | BigEndian.

Record t := {
  sampleRate : Z;
  channelCount : Z;
  sampleSize : Z;
  codec : string;
  byteOrder : Endian;
  sampleType : SampleType
}.
End QAudioFormat.

Record FormatDescriptionMap := {
  aud_format : Z;
  sample_size : Z;
  sample_type : QAudioFormat.SampleType;
  endian : QAudioFormat.Endian
}.

Definition FormatMap `{audio_formats} : list FormatDescriptionMap :=
  [ {| aud_format := FMT_S16_LE; sample_size := 16;
       sample_type := QAudioFormat.SignedInt; endian := QAudioFormat.LittleEndian |};
    {| aud_format := FMT_S16_BE; sample_size := 16;
       sample_type := QAudioFormat.SignedInt; endian := QAudioFormat.BigEndian |};
    {| aud_format := FMT_U16_LE; sample_size := 16;
       sample_type := QAudioFormat.UnSignedInt; endian := QAudioFormat.LittleEndian |};
    {| aud_format := FMT_U16_BE; sample_size := 16;
       sample_type := QAudioFormat.UnSignedInt; endian := QAudioFormat.BigEndian |};
    {| aud_format := FMT_S32_LE; sample_size := 32;
       sample_type := QAudioFormat.SignedInt; endian := QAudioFormat.LittleEndian |};
    {| aud_format := FMT_S32_BE; sample_size := 32;
       sample_type := QAudioFormat.SignedInt; endian := QAudioFormat.BigEndian |};
    {| aud_format := FMT_U32_LE; sample_size := 32;
       sample_type := QAudioFormat.UnSignedInt; endian := QAudioFormat.LittleEndian |};
    {| aud_format := FMT_U32_BE; sample_size := 32;
       sample_type := QAudioFormat.UnSignedInt; endian := QAudioFormat.BigEndian |};
    {| aud_format := FMT_FLOAT; sample_size := 32;
       sample_type := QAudioFormat.Float; endian := QAudioFormat.LittleEndian |} ].

(** *** The pointer [m] of [open_audio]

    [struct FormatDescriptionMap * m] is null ([None]) or holds the address
    of an object.  The only address it is ever given is that of [it], the
    variable of the range-based [for]: a copy of the table entry with
    automatic storage, made anew for each iteration, whose lifetime ends
    when the iteration is left, through [break] as well.  The table itself
    is never pointed to. *)
Inductive lifetime := Alive | Ended.

Record object := {
  contents : FormatDescriptionMap;
  life : lifetime
}.

Definition pointer := option object.

(** What a pointer designates once the scope of its object is left. *)
Definition leave_scope (m : pointer) : pointer :=
  (fun o => {| contents := contents o; life := Ended |}) <$> m.

(** The search loop at the head of [open_audio], with the value of [m]
    after it: null when no entry has the code, and otherwise the address
    [& it] taken in the iteration that found the code, after the [break]
    that leaves the scope of [it]. *)
Fixpoint find_format (format : Z) (table : list FormatDescriptionMap)
  : pointer :=
  match table with
  | [] => None
  | entry :: rest =>
      let it := {| contents := entry; life := Alive |} in
      if aud_format (contents it) =? format
      then leave_scope (Some it)
      else find_format format rest
  end.

(** [(m->sample_size / 8) + ((m->sample_size % 16) / 8)], computed in
    [unsigned int] and stored into an [int]. *)
Definition bytes_per_channel (size : Z) : Z :=
  to_int (uint_add (uint_div size 8) (uint_div (uint_rem size 16) 8)).

(** ** Volume *)

Module StereoVolume.
Record t := { left : Z; right : Z }.
End StereoVolume.

Definition VOLUME_RANGE : Z := 40.

(** Syntax of the [float] expression handed to the device. [FInt z] is the
    integer [z] converted to floating point, [FZero] the literal [0.0]. *)
Inductive float_expr :=
| FInt (z : Z)
| FZero
| FMul (a b : float_expr)
| FDiv (a b : float_expr)
| FPowf (a b : float_expr).

(** [(vol_max == 0) ? 0.0
       : powf (10, (float) VOLUME_RANGE * (vol_max - 100) / 100 / 20)];
    the subtraction is done on [int] before the conversion. *)
Definition volume_factor (vol_max : Z) : option float_expr :=
  if vol_max =? 0 then Some FZero
  else
    d ← int_sub vol_max 100;
    Some (FPowf (FInt 10)
            (FDiv (FDiv (FMul (FInt VOLUME_RANGE) (FInt d)) (FInt 100)) (FInt 20))).

(** ** Settings store *)

(** Modelled from the spec: the settings store of libaudcore, which is not
    part of the plugin.  "Settings store: getInt(namespace, key) -> int /
    setInt(namespace, key, value) ... defaults supplied once at
    initialization."  A null section is [None].  A key that was never set
    reads its default, and 0 when it has none. *)
Record settings := {
  cfg_values : gmap (option string * string) Z;
  cfg_defaults : gmap (option string * string) Z
}.

Definition aud_get_int (section : option string) (name : string)
    (cfg : settings) : Z :=
  match cfg_values cfg !! (section, name) with
  | Some v => v
  | None => default 0 (cfg_defaults cfg !! (section, name))
  end.

Definition aud_set_int (section : option string) (name : string) (value : Z)
    (cfg : settings) : settings :=
  {| cfg_values := <[(section, name) := value]> (cfg_values cfg);
     cfg_defaults := cfg_defaults cfg |}.

Definition aud_config_set_defaults (section : option string)
    (entries : list (string * Z)) (cfg : settings) : settings :=
  {| cfg_values := cfg_values cfg;
     cfg_defaults :=
       foldr (fun e d => <[(section, e.1) := e.2]> d) (cfg_defaults cfg) entries |}.

Definition no_settings : settings :=
  {| cfg_values := ∅; cfg_defaults := ∅ |}.

(** [QtAudio::defaults], with the decimal strings read as numbers. *)
Definition defaults : list (string * Z) :=
  [ ("vol_left"%string, 100); ("vol_right"%string, 100) ].

(** ** The device interface *)

(** Modelled from the spec: the QtMultimedia classes the plugin drives, which
    are not part of it ("Device backend: negotiateFormat, createStream,
    bytesFree, write, suspend/resume, reset, setVolume, stop/destroy").
    [QAudioOutput] is the state of one output object, [QIODevice] the write
    channel [start] hands out.  [elapse] is what the device does on its own
    while the caller sleeps on the condition variable. *)
Class QtMultimedia := {
  QAudioOutput : Type;
  QIODevice : Type;
  isFormatSupported : QAudioFormat.t -> bool;
  new_QAudioOutput : QAudioFormat.t -> QAudioOutput;
  setBufferSize : Z -> QAudioOutput -> QAudioOutput;
  start : QAudioOutput -> QAudioOutput * QIODevice;
  stop : QAudioOutput -> QAudioOutput;
  reset : QAudioOutput -> QAudioOutput;
  suspend : QAudioOutput -> QAudioOutput;
  resume : QAudioOutput -> QAudioOutput;
  setVolume : float_expr -> QAudioOutput -> QAudioOutput;
  bytesFree : QAudioOutput -> Z;
  bufferSize : QAudioOutput -> Z;
  write : QIODevice -> list byte -> Z -> QAudioOutput -> QAudioOutput;
  elapse : QAudioOutput -> QAudioOutput
}.

(** The two messages [error (...)] is called with. *)
Inductive error_message :=
| format_unsupported (format : Z)
    (* "QtAudio error: The requested audio format %d is unsupported.\n" *)
| format_rejected.
    (* "QtAudio error: Format not supported by backend.\n" *)

(** Calls to the collaborators. *)
Inductive call :=
| ShowError (msg : error_message)
| MutexLock
| MutexUnlock
| CondTimedWait
| CondBroadcast
| IsFormatSupported (fmt : QAudioFormat.t)
| New (fmt : QAudioFormat.t)
| SetBufferSize (size : Z)
| Start
| Stop
| Delete
| Reset
| Suspend
| Resume
| SetVolume (factor : float_expr)
| BytesFree
| BufferSize
| Write (data : list byte) (len : Z).

(** ** The plugin *)

Section Plugin.
Context `{Formats : audio_formats} `{Qt : QtMultimedia}.

(** The file-scope variables of the plugin, the settings store it reads
    and writes, and the log of calls.  [output_instance] holds the object
    the pointer owns; [None] is the null pointer. *)
Record state := {
  chan : Z;
  rate : Z;
  buffer_size : Z;
  buffer_bytes_per_channel : Z;
  frames_written : Z;
  output_instance : option QAudioOutput;
  buffer_instance : option QIODevice;
  config : settings;
  calls : list call
}.

(** The variables as the program starts: zero-initialised statics and null
    pointers. *)
Definition initial (cfg : settings) : state :=
  {| chan := 0; rate := 0; buffer_size := 0; buffer_bytes_per_channel := 0;
     frames_written := 0; output_instance := None; buffer_instance := None;
     config := cfg; calls := [] |}.

Definition set_chan (v : Z) (s : state) : state :=
  {| chan := v; rate := rate s; buffer_size := buffer_size s;
     buffer_bytes_per_channel := buffer_bytes_per_channel s;
     frames_written := frames_written s;
     output_instance := output_instance s;
     buffer_instance := buffer_instance s;
     config := config s; calls := calls s |}.

Definition set_rate (v : Z) (s : state) : state :=
  {| chan := chan s; rate := v; buffer_size := buffer_size s;
     buffer_bytes_per_channel := buffer_bytes_per_channel s;
     frames_written := frames_written s;
     output_instance := output_instance s;
     buffer_instance := buffer_instance s;
     config := config s; calls := calls s |}.

Definition set_buffer_size (v : Z) (s : state) : state :=
  {| chan := chan s; rate := rate s; buffer_size := v;
     buffer_bytes_per_channel := buffer_bytes_per_channel s;
     frames_written := frames_written s;
     output_instance := output_instance s;
     buffer_instance := buffer_instance s;
     config := config s; calls := calls s |}.

Definition set_buffer_bytes_per_channel (v : Z) (s : state) : state :=
  {| chan := chan s; rate := rate s; buffer_size := buffer_size s;
     buffer_bytes_per_channel := v;
     frames_written := frames_written s;
     output_instance := output_instance s;
     buffer_instance := buffer_instance s;
     config := config s; calls := calls s |}.

Definition set_frames_written (v : Z) (s : state) : state :=
  {| chan := chan s; rate := rate s; buffer_size := buffer_size s;
     buffer_bytes_per_channel := buffer_bytes_per_channel s;
     frames_written := v;
     output_instance := output_instance s;
     buffer_instance := buffer_instance s;
     config := config s; calls := calls s |}.

Definition set_output_instance (v : option QAudioOutput) (s : state) : state :=
  {| chan := chan s; rate := rate s; buffer_size := buffer_size s;
     buffer_bytes_per_channel := buffer_bytes_per_channel s;
     frames_written := frames_written s;
     output_instance := v;
     buffer_instance := buffer_instance s;
     config := config s; calls := calls s |}.

Definition set_buffer_instance (v : option QIODevice) (s : state) : state :=
  {| chan := chan s; rate := rate s; buffer_size := buffer_size s;
     buffer_bytes_per_channel := buffer_bytes_per_channel s;
     frames_written := frames_written s;
     output_instance := output_instance s;
     buffer_instance := v;
     config := config s; calls := calls s |}.

Definition set_config (v : settings) (s : state) : state :=
  {| chan := chan s; rate := rate s; buffer_size := buffer_size s;
     buffer_bytes_per_channel := buffer_bytes_per_channel s;
     frames_written := frames_written s;
     output_instance := output_instance s;
     buffer_instance := buffer_instance s;
     config := v; calls := calls s |}.

Definition log (c : call) (s : state) : state :=
  {| chan := chan s; rate := rate s; buffer_size := buffer_size s;
     buffer_bytes_per_channel := buffer_bytes_per_channel s;
     frames_written := frames_written s;
     output_instance := output_instance s;
     buffer_instance := buffer_instance s;
     config := config s; calls := calls s ++ [c] |}.

(** *** Computations

    An entry point either returns a value and a new state, or runs into
    undefined behaviour, or is still waiting on the condition variable
    when the rounds allotted to its loop are used up. *)
Inductive result (A : Type) : Type :=
| Ret (a : A) (s : state)
| Undefined
| Waiting.
Arguments Ret {A} a s.
Arguments Undefined {A}.
Arguments Waiting {A}.

Definition M (A : Type) : Type := state -> result A.

#[global] Instance M_ret : MRet M := fun A a s => Ret a s.
#[global] Instance M_bind : MBind M := fun A B f m s =>
  match m s with
  | Ret a s' => f a s'
  | Undefined => Undefined
  | Waiting => Waiting
  end.

Definition read {A} (f : state -> A) : M A := fun s => Ret (f s) s.
Definition modify (f : state -> state) : M unit := fun s => Ret tt (f s).
Definition undefined {A} : M A := fun _ => Undefined.
Definition waiting {A} : M A := fun _ => Waiting.

(** A signed operation: its value, or undefined behaviour. *)
Definition defined {A} (o : option A) : M A :=
  match o with
  | Some a => mret a
  | None => undefined
  end.

(** [output_instance->...] and [buffer_instance->...]. *)
Definition deref_output : M QAudioOutput :=
  out ← read output_instance; defined out.
Definition deref_buffer : M QIODevice :=
  io ← read buffer_instance; defined io.

(** [m->...]: the read of a field through [m], defined for a pointer to an
    object within its lifetime only. *)
Definition deref_format (m : pointer) : M FormatDescriptionMap :=
  match m with
  | Some {| contents := it; life := Alive |} => mret it
  | _ => undefined
  end.

(** A method of the output object that changes it. *)
Definition method (c : call) (f : QAudioOutput -> QAudioOutput) : M unit :=
  out ← deref_output;
  modify (log c);;
  modify (set_output_instance (Some (f out))).

(** A method of the output object that reads from it. *)
Definition query (c : call) (f : QAudioOutput -> Z) : M Z :=
  out ← deref_output;
  modify (log c);;
  mret (f out).

(** *** Collaborators *)

Definition error (msg : error_message) : M unit := modify (log (ShowError msg)).

Definition pthread_mutex_lock : M unit := modify (log MutexLock).
Definition pthread_mutex_unlock : M unit := modify (log MutexUnlock).
Definition pthread_cond_broadcast : M unit := modify (log CondBroadcast).

(** [pthread_cond_timedwait (& cond, & mutex, & fifty_ms)]: the mutex is
    released for the time of the wait, and the device goes on playing. *)
Definition pthread_cond_timedwait : M unit :=
  modify (log CondTimedWait);;
  modify (fun s => set_output_instance (elapse <$> output_instance s) s).

Definition get_int (section : option string) (name : string) : M Z :=
  read (fun s => aud_get_int section name (config s)).
Definition set_int (section : option string) (name : string) (value : Z) : M unit :=
  modify (fun s => set_config (aud_set_int section name value (config s)) s).

Definition qtaudio : option string := Some "qtaudio"%string.

(** *** Entry points *)

Definition init : M bool :=
  modify (fun s => set_config (aud_config_set_defaults qtaudio defaults (config s)) s);;
  mret true.

Definition get_volume : M StereoVolume.t :=
  l ← get_int qtaudio "vol_left";
  r ← get_int qtaudio "vol_right";
  mret {| StereoVolume.left := l; StereoVolume.right := r |}.

Definition set_volume (v : StereoVolume.t) : M unit :=
  let vol_max := Z.max (StereoVolume.left v) (StereoVolume.right v) in
  set_int qtaudio "vol_left" (StereoVolume.left v);;
  set_int qtaudio "vol_right" (StereoVolume.right v);;
  out ← read output_instance;
  match out with
  | Some _ =>
      factor ← defined (volume_factor vol_max);
      method (SetVolume factor) (setVolume factor)
  | None => mret tt
  end.

(** The [QAudioFormat fmt] that [open_audio] fills in from the table entry,
    [rate] and [chan]. *)
Definition device_format (m : FormatDescriptionMap) (rate_ chan_ : Z)
  : QAudioFormat.t :=
  {| QAudioFormat.sampleRate := rate_;
     QAudioFormat.channelCount := chan_;
     QAudioFormat.sampleSize := sample_size m;
     QAudioFormat.codec := "audio/pcm";
     QAudioFormat.byteOrder := endian m;
     QAudioFormat.sampleType := sample_type m |}.

(** [if (! m)] compares the pointer only; [m->sample_size] at line 170 and
    the reads that fill in [fmt] at lines 178 to 181 go through it. *)
Definition open_audio (format rate_ chan_ : Z) : M bool :=
  let m := find_format format FormatMap in
  match m with
  | None =>
      error (format_unsupported format);;
      mret false
  | Some _ =>
      modify (set_chan chan_);;
      modify (set_rate rate_);;
      it ← deref_format m;
      modify (set_buffer_bytes_per_channel (bytes_per_channel (sample_size it)));;
      bpc ← read buffer_bytes_per_channel;
      ch ← read chan;
      r ← read rate;
      ms ← get_int None "output_buffer_size";
      size ← defined (frame ← int_mul bpc ch;
                      scaled ← int_mul ms r;
                      frames ← int_div scaled 1000;
                      int_mul frame frames);
      modify (set_buffer_size size);;
      modify (set_frames_written 0);;
      it ← deref_format m;
      let fmt := device_format it r ch in
      modify (log (IsFormatSupported fmt));;
      if negb (isFormatSupported fmt) then
        error format_rejected;;
        mret false
      else
        modify (log (New fmt));;
        modify (set_output_instance (Some (new_QAudioOutput fmt)));;
        size ← read buffer_size;
        method (SetBufferSize size) (setBufferSize size);;
        out ← deref_output;
        modify (log Start);;
        modify (set_output_instance (Some (start out).1));;
        modify (set_buffer_instance (Some (start out).2));;
        v ← get_volume;
        set_volume v;;
        mret true
  end.

Definition close_audio : M unit :=
  method Stop stop;;
  modify (log Delete);;
  modify (set_output_instance None).

Definition buffer_free : M Z :=
  pthread_mutex_lock;;
  space ← query BytesFree bytesFree;
  pthread_mutex_unlock;;
  mret space.

(** [while (! output_instance->bytesFree ()) pthread_cond_timedwait (...)],
    for at most [rounds] waits. *)
Fixpoint period_wait_loop (rounds : nat) : M unit :=
  space ← query BytesFree bytesFree;
  if space =? 0 then
    match rounds with
    | O => waiting
    | S rounds' => pthread_cond_timedwait;; period_wait_loop rounds'
    end
  else mret tt.

Definition period_wait (rounds : nat) : M unit :=
  pthread_mutex_lock;;
  period_wait_loop rounds;;
  pthread_mutex_unlock.

Definition write_audio (data : list byte) (len : Z) : M unit :=
  pthread_mutex_lock;;
  io ← deref_buffer;
  method (Write data len) (write io data len);;
  bpc ← read buffer_bytes_per_channel;
  ch ← read chan;
  frame ← defined (int_mul bpc ch);
  frames ← defined (int_div len frame);
  written ← read frames_written;
  total ← defined (int64_add written frames);
  modify (set_frames_written total);;
  pthread_mutex_unlock.

(** [while (output_instance->bytesFree () < output_instance->bufferSize ())
       pthread_cond_timedwait (...)], for at most [rounds] waits. *)
Fixpoint drain_loop (rounds : nat) : M unit :=
  free ← query BytesFree bytesFree;
  size ← query BufferSize bufferSize;
  if free <? size then
    match rounds with
    | O => waiting
    | S rounds' => pthread_cond_timedwait;; drain_loop rounds'
    end
  else mret tt.

Definition drain (rounds : nat) : M unit :=
  pthread_mutex_lock;;
  drain_loop rounds;;
  pthread_mutex_unlock.

Definition output_time : M Z :=
  pthread_mutex_lock;;
  size ← query BufferSize bufferSize;
  free ← query BytesFree bytesFree;
  bpc ← read buffer_bytes_per_channel;
  ch ← read chan;
  r ← read rate;
  written ← read frames_written;
  out ← defined (queued ← int_sub size free;
                 frame ← int_mul bpc ch;
                 pending ← int_div queued frame;
                 played ← int64_sub written pending;
                 scaled ← int64_mul played 1000;
                 int64_div scaled r);
  pthread_mutex_unlock;;
  mret (to_int out).

Definition pause (p : bool) : M unit :=
  pthread_mutex_lock;;
  (if p then method Suspend suspend else method Resume resume);;
  pthread_cond_broadcast;;
  pthread_mutex_unlock.

Definition flush (time : Z) : M unit :=
  pthread_mutex_lock;;
  r ← read rate;
  position ← defined (scaled ← int64_mul time r; int64_div scaled 1000);
  modify (set_frames_written position);;
  method Reset reset;;
  out ← deref_output;
  modify (log Start);;
  modify (set_output_instance (Some (start out).1));;
  modify (set_buffer_instance (Some (start out).2));;
  pthread_cond_broadcast;;
  pthread_mutex_unlock.

(** *** Sessions *)

(** The volume [get_volume] reads from the settings [cfg], and the settings
    [set_volume v] leaves. *)
Definition stored_volume (cfg : settings) : StereoVolume.t :=
  {| StereoVolume.left := aud_get_int qtaudio "vol_left" cfg;
     StereoVolume.right := aud_get_int qtaudio "vol_right" cfg |}.

Definition store_volume (v : StereoVolume.t) (cfg : settings) : settings :=
  aud_set_int qtaudio "vol_right" (StereoVolume.right v)
    (aud_set_int qtaudio "vol_left" (StereoVolume.left v) cfg).

(** The size of a frame as the entry points compute it. *)
Definition bytes_per_frame (s : state) : Z :=
  buffer_bytes_per_channel s * chan s.

(** A session is open when the output object and its write channel exist
    and a frame has a positive size. *)
Definition session_open (s : state) : Prop :=
  is_Some (output_instance s) /\ is_Some (buffer_instance s) /\
  0 < chan s /\ 0 < buffer_bytes_per_channel s.

(** The variables of the session, without the settings and the log. *)
Definition session_variables (s : state)
  : Z * Z * Z * Z * Z * option QAudioOutput * option QIODevice :=
  (chan s, rate s, buffer_size s, buffer_bytes_per_channel s,
   frames_written s, output_instance s, buffer_instance s).

(** [s'] differs from [s] at most in the output object and the log. *)
Definition keeps_variables (s s' : state) : Prop :=
  chan s' = chan s /\ rate s' = rate s /\ buffer_size s' = buffer_size s /\
  buffer_bytes_per_channel s' = buffer_bytes_per_channel s /\
  frames_written s' = frames_written s /\
  buffer_instance s' = buffer_instance s /\
  config s' = config s.

(** The calls of a wait loop that polls with [poll] and goes through
    [waits] waits before the poll that ends it. *)
Fixpoint polling (poll : list call) (waits : nat) : list call :=
  match waits with
  | O => poll
  | S waits' => poll ++ CondTimedWait :: polling poll waits'
  end.

(** What the playback engine may ask of an open session. *)
Inductive operation :=
| op_write_audio (data : list byte) (len : Z)
| op_pause (p : bool)
| op_buffer_free
| op_period_wait (rounds : nat)
| op_drain (rounds : nat)
| op_output_time
| op_flush (time : Z)
| op_get_volume
| op_set_volume (v : StereoVolume.t).

Definition perform (o : operation) : M unit :=
  match o with
  | op_write_audio data len => write_audio data len
  | op_pause p => pause p
  | op_buffer_free => buffer_free;; mret tt
  | op_period_wait rounds => period_wait rounds
  | op_drain rounds => drain rounds
  | op_output_time => output_time;; mret tt
  | op_flush time => flush time
  | op_get_volume => get_volume;; mret tt
  | op_set_volume v => set_volume v
  end.

(** The operations other than a flush and a write of negative length. *)
Definition never_rewinds (o : operation) : Prop :=
  match o with
  | op_flush _ => False
  | op_write_audio _ len => 0 <= len
  | _ => True
  end.

(** [reaches s s'] when some sequence of operations leads from [s] to
    [s']; [plays s s'] when none of them rewinds. *)
Inductive reaches (s : state) : state -> Prop :=
| reaches_here : reaches s s
| reaches_step o s1 s2 :
    reaches s s1 -> perform o s1 = Ret tt s2 -> reaches s s2.

Inductive plays (s : state) : state -> Prop :=
| plays_here : plays s s
| plays_step o s1 s2 :
    plays s s1 -> never_rewinds o -> perform o s1 = Ret tt s2 -> plays s s2.

End Plugin.

Arguments Ret {Qt A} a s.
Arguments Undefined {Qt A}.
Arguments Waiting {Qt A}.

(** ** Notions used by the properties *)

(** The operations that go through [output_instance]. *)
Definition touches_device (o : operation) : Prop :=
  match o with
  | op_get_volume | op_set_volume _ => False
  | _ => True
  end.

(** A computation that no state leaves waiting. *)
Definition never_waits `{Qt : QtMultimedia} {A} (m : M A) : Prop :=
  forall s, m s <> Waiting.




(** ** A simulated device

    A device with one buffer that plays, on every wait of the caller, the
    bytes of fifty milliseconds of audio; it takes one or two channels at
    8 kHz to 192 kHz.  It serves as the concrete device of the examples. *)
Module Sim.
Inductive State := ActiveState | SuspendedState | StoppedState.

Record output := {
  format : QAudioFormat.t;
  size : Z;
  queued : Z;
  state : State;
  volume : option float_expr;
  streams : nat
}.

Definition supported (fmt : QAudioFormat.t) : bool :=
  (1 <=? QAudioFormat.channelCount fmt) && (QAudioFormat.channelCount fmt <=? 2) &&
  (8000 <=? QAudioFormat.sampleRate fmt) && (QAudioFormat.sampleRate fmt <=? 192000).

Definition used (d : output) : Z := Z.max 0 (Z.min (queued d) (size d)).
Definition free (d : output) : Z := size d - used d.

Definition create (fmt : QAudioFormat.t) : output :=
  {| format := fmt; size := 0; queued := 0; state := StoppedState;
     volume := None; streams := 0 |}.

Definition resize (n : Z) (d : output) : output :=
  {| format := format d; size := n; queued := queued d; state := state d;
     volume := volume d; streams := streams d |}.

Definition enqueue (q : Z) (d : output) : output :=
  {| format := format d; size := size d; queued := q; state := state d;
     volume := volume d; streams := streams d |}.

Definition enter (st : State) (d : output) : output :=
  {| format := format d; size := size d; queued := queued d; state := st;
     volume := volume d; streams := streams d |}.

Definition run (d : output) : output * nat :=
  ({| format := format d; size := size d; queued := queued d;
      state := ActiveState; volume := volume d; streams := S (streams d) |},
   S (streams d)).

Definition attenuate (f : float_expr) (d : output) : output :=
  {| format := format d; size := size d; queued := queued d; state := state d;
     volume := Some f; streams := streams d |}.

(** The channel takes what fits in the buffer. *)
Definition accept (io : nat) (data : list byte) (len : Z) (d : output) : output :=
  enqueue (used d + Z.max 0 (Z.min len (free d))) d.

Definition period_bytes (fmt : QAudioFormat.t) : Z :=
  QAudioFormat.sampleRate fmt * QAudioFormat.channelCount fmt
  * (QAudioFormat.sampleSize fmt ÷ 8) * 50 ÷ 1000.

Definition play (d : output) : output :=
  match state d with
  | ActiveState => enqueue (Z.max 0 (used d - period_bytes (format d))) d
  | _ => d
  end.

Definition device : QtMultimedia :=
  {| QAudioOutput := output;
     QIODevice := nat;
     isFormatSupported := supported;
     new_QAudioOutput := create;
     setBufferSize := resize;
     start := run;
     stop := fun d => enter StoppedState (enqueue 0 d);
     reset := fun d => enter StoppedState (enqueue 0 d);
     suspend := enter SuspendedState;
     resume := enter ActiveState;
     setVolume := attenuate;
     bytesFree := free;
     bufferSize := size;
     write := accept;
     elapse := play |}.
End Sim.

(** One numbering of the format codes, for the examples. *)
Definition format_codes : audio_formats :=
  {| FMT_FLOAT := 0;
     FMT_S16_LE := 3; FMT_S16_BE := 4; FMT_U16_LE := 5; FMT_U16_BE := 6;
     FMT_S32_LE := 11; FMT_S32_BE := 12; FMT_U32_LE := 13; FMT_U32_BE := 14 |}.

(** Settings with an output buffer of [ms] milliseconds, after [init]. *)
Definition settings_with_buffer (ms : Z) : settings :=
  aud_config_set_defaults (Some "qtaudio"%string) defaults
    (aud_set_int None "output_buffer_size" ms no_settings).

(** The state an entry point returns, or [otherwise] when it does not. *)
Definition returned `{Qt : QtMultimedia} {A} (r : result A) (otherwise : state)
  : state :=
  match r with
  | Ret _ s => s
  | _ => otherwise
  end.

(** Two entries of the table under [format_codes]. *)
Definition s16_le : FormatDescriptionMap :=
  {| aud_format := 3; sample_size := 16;
     sample_type := QAudioFormat.SignedInt;
     endian := QAudioFormat.LittleEndian |}.


(** The gain [set_volume] computes for a volume of 100. *)
Definition full_gain : float_expr :=
  FPowf (FInt 10) (FDiv (FDiv (FMul (FInt 40) (FInt 0)) (FInt 100)) (FInt 20)).

(** A session on the simulated device, given outright: 16-bit samples at
    [rate_] Hz on [chan_] channels, a device buffer of [size] bytes on an
    output object that was created, sized, started and set to full gain,
    and the volume (100, 100) in the settings.  No call of [open_audio]
    returns such a state (see [open_audio_dangling]); the entry points
    that work on a session are exercised on it all the same. *)
Definition sim_opened (rate_ chan_ size : Z) (cfg : settings)
  : @state Sim.device :=
  let fmt := device_format s16_le rate_ chan_ in
  let started := Sim.run (Sim.resize size (Sim.create fmt)) in
  @Build_state Sim.device
    (* chan, rate *) chan_ rate_
    (* buffer_size, buffer_bytes_per_channel *) size 2
    (* frames_written *) 0
    (* output_instance *) (Some (Sim.attenuate full_gain started.1))
    (* buffer_instance *) (Some started.2)
    (* config *)
    (store_volume {| StereoVolume.left := 100; StereoVolume.right := 100 |} cfg)
    (* calls *)
    [IsFormatSupported fmt; New fmt; SetBufferSize size; Start;
     SetVolume full_gain].

(** States of the simulated device used in the examples: before any call,
    with a buffer of 500 ms configured; a session of 16-bit stereo at
    44100 Hz with a buffer of 88200 bytes; and the session after a seek to
    one second and a write of two frames. *)
Definition sim_start : @state Sim.device :=
  @initial Sim.device (settings_with_buffer 500).

Definition sim_session : @state Sim.device :=
  sim_opened 44100 2 88200 (settings_with_buffer 500).

Definition two_frames : list byte :=
  [x01; x00; xff; xff; x02; x00; xfe; xff].

Definition sim_seeked : @state Sim.device :=
  returned (@flush Sim.device 1000 sim_session) sim_session.

Definition sim_playing : @state Sim.device :=
  returned (@write_audio Sim.device two_frames 8 sim_seeked) sim_seeked.

(** More states of the simulated device: the session of [sim_session]
    after [close_audio], and with the two queued frames of [sim_playing]
    held back by a pause; a session of 16-bit mono at 8000 Hz with a buffer
    of 160 bytes; that session with its buffer filled; and the filled
    session paused. *)
Definition sim_closed : @state Sim.device :=
  returned (@close_audio Sim.device sim_session) sim_session.

Definition sim_paused : @state Sim.device :=
  returned (@pause Sim.device true sim_playing) sim_playing.

Definition sim_small : @state Sim.device :=
  sim_opened 8000 1 160 (settings_with_buffer 10).

Definition silence : list byte := replicate 160 x00.

Definition sim_filled : @state Sim.device :=
  returned (@write_audio Sim.device silence 160 sim_small) sim_small.

Definition sim_stalled : @state Sim.device :=
  returned (@pause Sim.device true sim_filled) sim_filled.

(** * Properties *)

(** ** Arithmetic on machine integers *)

Lemma as_int_Some z v : as_int z = Some v -> v = z /\ int_range z.
Proof.
  unfold as_int. destruct (fits_int z) eqn:E; [|discriminate].
  intros [= <-]. unfold fits_int in E. apply andb_prop in E as [E1 E2].
  unfold int_range. lia.
Qed.

Lemma as_int64_Some z v : as_int64 z = Some v -> v = z /\ int64_range z.
Proof.
  unfold as_int64. destruct (fits_int64 z) eqn:E; [|discriminate].
  intros [= <-]. unfold fits_int64 in E. apply andb_prop in E as [E1 E2].
  unfold int64_range. lia.
Qed.

Lemma as_int_fits z : int_range z -> as_int z = Some z.
Proof.
  unfold int_range, as_int, fits_int. intros [H1 H2].
  apply Z.leb_le in H1, H2. by rewrite H1, H2.
Qed.

Lemma as_int64_fits z : int64_range z -> as_int64 z = Some z.
Proof.
  unfold int64_range, as_int64, fits_int64. intros [H1 H2].
  apply Z.leb_le in H1, H2. by rewrite H1, H2.
Qed.

Lemma int_div_Some a b q :
  int_div a b = Some q -> b <> 0 /\ q = a ÷ b /\ int_range (a ÷ b).
Proof.
  unfold int_div. destruct (Z.eqb_spec b 0); [discriminate|].
  intros H%as_int_Some. tauto.
Qed.

Lemma int64_div_Some a b q :
  int64_div a b = Some q -> b <> 0 /\ q = a ÷ b /\ int64_range (a ÷ b).
Proof.
  unfold int64_div. destruct (Z.eqb_spec b 0); [discriminate|].
  intros H%as_int64_Some. tauto.
Qed.

Lemma int_div_fits a b : b <> 0 -> int_range (a ÷ b) -> int_div a b = Some (a ÷ b).
Proof.
  intros Hb Hq. unfold int_div. destruct (Z.eqb_spec b 0); [done|].
  by apply as_int_fits.
Qed.

Lemma int64_div_fits a b :
  b <> 0 -> int64_range (a ÷ b) -> int64_div a b = Some (a ÷ b).
Proof.
  intros Hb Hq. unfold int64_div. destruct (Z.eqb_spec b 0); [done|].
  by apply as_int64_fits.
Qed.

(** A product of two [int]s always fits an [int64_t]. *)
Lemma int64_mul_of_ints a b :
  int_range a -> int_range b -> int64_mul a b = Some (a * b).
Proof.
  unfold int_range, INT_MIN, INT_MAX. intros Ha Hb.
  apply as_int64_fits. unfold int64_range, INT64_MIN, INT64_MAX. nia.
Qed.

(** Dividing by a positive constant keeps a value within its type. *)
Lemma quot_int64_range a b : 0 < b -> int64_range a -> int64_range (a ÷ b).
Proof.
  unfold int64_range, INT64_MIN, INT64_MAX. intros Hb Ha.
  destruct (Z.le_gt_cases 0 a) as [Hpos|Hneg].
  - pose proof (Z.quot_pos a b Hpos Hb). pose proof (Z.quot_le_upper_bound a b a Hb).
    assert (a ÷ b <= a) by (apply Z.quot_le_upper_bound; nia). lia.
  - assert (Hopp : (- a) ÷ b <= - a) by (apply Z.quot_le_upper_bound; nia).
    pose proof (Z.quot_pos (- a) b ltac:(lia) Hb).
    rewrite Z.quot_opp_l in * by lia. lia.
Qed.

Lemma to_int_fits z : int_range z -> to_int z = z.
Proof.
  unfold int_range, INT_MIN, INT_MAX, to_int. intros H.
  rewrite Z.mod_small; lia.
Qed.

Lemma to_int_range z : int_range (to_int z).
Proof.
  unfold int_range, INT_MIN, INT_MAX, to_int.
  pose proof (Z.mod_pos_bound (z + 2 ^ 31) (2 ^ 32) ltac:(lia)). lia.
Qed.

(** ** Running the entry points *)

Section Running.
Context `{Qt : QtMultimedia}.

Lemma bind_inv {A B} (m : M A) (f : A -> M B) s b s' :
  (m ≫= f) s = Ret b s' -> exists a s1, m s = Ret a s1 /\ f a s1 = Ret b s'.
Proof.
  unfold mbind, M_bind. destruct (m s) as [a s1| |]; [eauto|discriminate..].
Qed.

Lemma bind_run {A B} (m : M A) (f : A -> M B) s a s1 :
  m s = Ret a s1 -> (m ≫= f) s = f a s1.
Proof. unfold mbind, M_bind. by intros ->. Qed.

Lemma mret_inv {A} (a b : A) s s' : mret (M:=M) a s = Ret b s' -> b = a /\ s' = s.
Proof. unfold mret, M_ret. by intros [= -> ->]. Qed.

Lemma read_inv {A} (f : state -> A) s a s' :
  read f s = Ret a s' -> a = f s /\ s' = s.
Proof. unfold read. by intros [= <- <-]. Qed.

Lemma modify_inv f s u s' : modify f s = Ret u s' -> s' = f s.
Proof. unfold modify. by intros [= <-]. Qed.

Lemma defined_inv {A} (o : option A) s a s' :
  defined o s = Ret a s' -> o = Some a /\ s' = s.
Proof. unfold defined. destruct o; [|discriminate]. by intros [-> ->]%mret_inv. Qed.

Lemma method_inv c f s u s' :
  method c f s = Ret u s' ->
  exists d, output_instance s = Some d /\
            s' = set_output_instance (Some (f d)) (log c s).
Proof.
  unfold method, deref_output.
  intros (d & s1 & H1 & H2)%bind_inv.
  apply bind_inv in H1 as (o & s2 & [-> ->]%read_inv & [-> ->]%defined_inv).
  apply bind_inv in H2 as (? & s3 & ->%modify_inv & ->%modify_inv).
  eauto.
Qed.

Lemma query_inv c f s v s' :
  query c f s = Ret v s' ->
  exists d, output_instance s = Some d /\ v = f d /\ s' = log c s.
Proof.
  unfold query, deref_output.
  intros (d & s1 & H1 & H2)%bind_inv.
  apply bind_inv in H1 as (o & s2 & [-> ->]%read_inv & [-> ->]%defined_inv).
  apply bind_inv in H2 as (? & s3 & ->%modify_inv & [-> ->]%mret_inv).
  eauto.
Qed.

Lemma get_volume_run s :
  get_volume s = Ret (stored_volume (config s)) s.
Proof. reflexivity. Qed.

Lemma get_volume_inv s v s' :
  get_volume s = Ret v s' -> v = stored_volume (config s) /\ s' = s.
Proof. rewrite get_volume_run. by intros [= <- <-]. Qed.

Lemma timedwait_inv s u s' :
  pthread_cond_timedwait s = Ret u s' ->
  s' = set_output_instance (elapse <$> output_instance s) (log CondTimedWait s).
Proof.
  unfold pthread_cond_timedwait.
  by intros (? & ? & ->%modify_inv & ->%modify_inv)%bind_inv.
Qed.

Lemma defined_run {A} (o : option A) a s : o = Some a -> defined o s = Ret a s.
Proof. by intros ->. Qed.

Lemma deref_output_run s d : output_instance s = Some d -> deref_output s = Ret d s.
Proof. intros Hd. unfold deref_output, read, mbind, M_bind. by rewrite Hd. Qed.

Lemma deref_buffer_run s io : buffer_instance s = Some io -> deref_buffer s = Ret io s.
Proof. intros Hio. unfold deref_buffer, read, mbind, M_bind. by rewrite Hio. Qed.

Lemma method_run c f s d :
  output_instance s = Some d ->
  method c f s = Ret tt (set_output_instance (Some (f d)) (log c s)).
Proof.
  intros Hd. unfold method, deref_output, read, defined, modify, mbind, M_bind.
  by rewrite Hd.
Qed.

Lemma query_run c f s d :
  output_instance s = Some d -> query c f s = Ret (f d) (log c s).
Proof.
  intros Hd. unfold query, deref_output, read, defined, modify, mbind, M_bind.
  by rewrite Hd.
Qed.

End Running.

(** Reads the fields of a state built by the setters. *)
Ltac simpl_state :=
  cbn [chan rate buffer_size buffer_bytes_per_channel frames_written
       output_instance buffer_instance config calls
       set_chan set_rate set_buffer_size set_buffer_bytes_per_channel
       set_frames_written set_output_instance set_buffer_instance set_config
       log] in *.

(** Takes apart every hypothesis that says a sequence of steps returned. *)
Ltac invert_step :=
  match goal with
  | H : mbind _ _ _ = Ret _ _ |- _ => apply bind_inv in H as (? & ? & ? & H)
  | H : mret _ _ = Ret _ _ |- _ => apply mret_inv in H as [? ?]
  | H : read _ _ = Ret _ _ |- _ => apply read_inv in H as [? ?]
  | H : modify _ _ = Ret _ _ |- _ => apply modify_inv in H
  | H : defined _ _ = Ret _ _ |- _ => apply defined_inv in H as [H ?]
  | H : method _ _ _ = Ret _ _ |- _ => apply method_inv in H as (? & ? & ?)
  | H : query _ _ _ = Ret _ _ |- _ => apply query_inv in H as (? & ? & ? & ?)
  | H : pthread_mutex_lock _ = Ret _ _ |- _ => apply modify_inv in H
  | H : pthread_mutex_unlock _ = Ret _ _ |- _ => apply modify_inv in H
  | H : pthread_cond_broadcast _ = Ret _ _ |- _ => apply modify_inv in H
  | H : error _ _ = Ret _ _ |- _ => apply modify_inv in H
  | H : get_int _ _ _ = Ret _ _ |- _ => apply read_inv in H as [? ?]
  | H : set_int _ _ _ _ = Ret _ _ |- _ => apply modify_inv in H
  | H : deref_output _ = Ret _ _ |- _ => apply bind_inv in H as (? & ? & ? & H)
  | H : deref_buffer _ = Ret _ _ |- _ => apply bind_inv in H as (? & ? & ? & H)
  | H : get_volume _ = Ret _ _ |- _ => apply get_volume_inv in H as [? ?]
  | H : pthread_cond_timedwait _ = Ret _ _ |- _ => apply timedwait_inv in H
  end.

Ltac invert_run := repeat (invert_step; subst; simpl_state; simplify_eq).

(** Runs the first step of a sequence, given a proof that it returns. *)
Tactic Notation "run_step" "by" tactic3(tac) :=
  erewrite bind_run by tac; cbv beta.

(** Turns the equations of checked arithmetic into values and ranges. *)
Ltac invert_arith :=
  repeat match goal with
  | H : mbind _ _ = Some _ |- _ => apply bind_Some in H as (? & ? & H)
  | H : int_add _ _ = Some _ |- _ => apply as_int_Some in H as [? ?]
  | H : int_sub _ _ = Some _ |- _ => apply as_int_Some in H as [? ?]
  | H : int_mul _ _ = Some _ |- _ => apply as_int_Some in H as [? ?]
  | H : int_div _ _ = Some _ |- _ => apply int_div_Some in H as (? & ? & ?)
  | H : int64_add _ _ = Some _ |- _ => apply as_int64_Some in H as [? ?]
  | H : int64_sub _ _ = Some _ |- _ => apply as_int64_Some in H as [? ?]
  | H : int64_mul _ _ = Some _ |- _ => apply as_int64_Some in H as [? ?]
  | H : int64_div _ _ = Some _ |- _ => apply int64_div_Some in H as (? & ? & ?)
  | H : as_int _ = Some _ |- _ => apply as_int_Some in H as [? ?]
  | H : as_int64 _ = Some _ |- _ => apply as_int64_Some in H as [? ?]
  end; subst.

(** ** The lookup loop *)

(** The loop leaves [m] null exactly when no entry has the code. *)
Lemma find_format_None format table :
  find_format format table = None <-> format ∉ aud_format <$> table.
Proof.
  induction table as [|entry rest IH]; cbn.
  - split; [|done]. intros _ Hin. by apply elem_of_nil in Hin.
  - destruct (Z.eqb_spec (aud_format entry) format) as [Heq|Hne].
    + split; [discriminate|]. intros Hout. destruct Hout. rewrite Heq. left.
    + rewrite IH. rewrite not_elem_of_cons. by split; [|intros [_ ?]].
Qed.

(** Otherwise [m] holds the address of the copy of an entry with the code,
    and the lifetime of that copy is over. *)
Lemma find_format_Some format table o :
  find_format format table = Some o ->
  life o = Ended /\ contents o ∈ table /\ aud_format (contents o) = format.
Proof.
  induction table as [|entry rest IH]; cbn; [discriminate|].
  destruct (Z.eqb_spec (aud_format entry) format) as [Heq|Hne].
  - intros [= <-]. cbn. split_and!; [done|left|done].
  - intros (Hlife & Hin & Hcode)%IH. split_and!; [done|by right|done].
Qed.

Lemma find_format_elem_of format table :
  format ∈ aud_format <$> table ->
  exists it, find_format format table = Some {| contents := it; life := Ended |}.
Proof.
  intros Hin. destruct (find_format format table) as [[it l]|] eqn:Hm.
  - apply find_format_Some in Hm as (Hlife & _). cbn in Hlife. subst l. by exists it.
  - by apply find_format_None in Hm.
Qed.

(** ** Opening a session *)

Section Opening.
Context `{Formats : audio_formats} `{Qt : QtMultimedia}.

Lemma set_volume_inv v s u s' :
  set_volume v s = Ret u s' ->
  config s' = store_volume v (config s) /\
  chan s' = chan s /\ rate s' = rate s /\ buffer_size s' = buffer_size s /\
  buffer_bytes_per_channel s' = buffer_bytes_per_channel s /\
  frames_written s' = frames_written s /\
  buffer_instance s' = buffer_instance s /\
  match output_instance s with
  | None => output_instance s' = None /\ calls s' = calls s
  | Some d =>
      exists factor,
        volume_factor (Z.max (StereoVolume.left v) (StereoVolume.right v))
          = Some factor /\
        output_instance s' = Some (setVolume factor d) /\
        calls s' = calls s ++ [SetVolume factor]
  end.
Proof.
  unfold set_volume. intros H. invert_run.
  destruct (output_instance s) as [d|] eqn:Hd.
  - invert_run. split_and!; try done. eauto.
  - invert_run. by split_and!.
Qed.

Lemma bind_undefined {A B} (m : M A) (f : A -> M B) s :
  m s = Undefined -> (m ≫= f) s = Undefined.
Proof. unfold mbind, M_bind. by intros ->. Qed.

Lemma bind_waiting {A B} (m : M A) (f : A -> M B) s :
  m s = Waiting -> (m ≫= f) s = Waiting.
Proof. unfold mbind, M_bind. by intros ->. Qed.

Lemma open_audio_unsupported format rate_ chan_ s :
  find_format format FormatMap = None ->
  open_audio format rate_ chan_ s
  = Ret false (log (ShowError (format_unsupported format)) s).
Proof. unfold open_audio. by intros ->. Qed.

(** For a code of the table, [open_audio] reads the entry through the
    address of the loop's copy, after the loop: the first [m->sample_size]
    has no defined behaviour, whatever the rate, the channel count, the
    state and the device. *)
Lemma open_audio_dangling format rate_ chan_ s o :
  find_format format FormatMap = Some o ->
  open_audio format rate_ chan_ s = Undefined.
Proof.
  intros Hm. pose proof (find_format_Some _ _ _ Hm) as [Hlife _].
  unfold open_audio. rewrite Hm. cbv zeta beta iota.
  do 2 run_step by reflexivity.
  apply bind_undefined. unfold deref_format.
  destruct o as [it l]. cbn in Hlife. by subst l.
Qed.


(** C2: the call of the scenario, 16-bit signed little-endian at 44100 Hz
    on 2 channels, has no defined behaviour, whatever the numbering of the
    format codes, the device, the configured buffer length and the state:
    the capacity of 88200 bytes is not computed. *)
Theorem open_audio_s16_stereo_undefined s :
  open_audio FMT_S16_LE 44100 2 s = Undefined.
Proof.
  apply (open_audio_dangling _ _ _ _
           {| contents := {| aud_format := FMT_S16_LE; sample_size := 16;
                             sample_type := QAudioFormat.SignedInt;
                             endian := QAudioFormat.LittleEndian |};
              life := Ended |}).
  unfold FormatMap. cbn [find_format contents aud_format].
  by rewrite Z.eqb_refl.
Qed.

(** C7: for a format code absent from the table [open_audio] reports the
    error once, returns false and leaves every variable, the settings and
    the device as they were.  For a code of the table the call has no
    defined behaviour before the device is asked about the format: a
    rejection by the device is never reported as a failure. *)
Theorem open_audio_failure format rate_ chan_ s :
  (format ∉ aud_format <$> FormatMap ->
   open_audio format rate_ chan_ s
   = Ret false (log (ShowError (format_unsupported format)) s)) /\
  (format ∈ aud_format <$> FormatMap ->
   open_audio format rate_ chan_ s = Undefined).
Proof.
  split.
  - intros Hm%find_format_None. by apply open_audio_unsupported.
  - intros [it Hm]%find_format_elem_of. by apply (open_audio_dangling _ _ _ _ _ Hm).
Qed.

End Opening.

(** ** The playback clock *)

Section Clock.
Context `{Qt : QtMultimedia}.

(** C3: [output_time] returns (frames_written − (capacity − bytes_free) /
    bytes_per_frame) × 1000 / rate, both divisions truncating, as an [int].
    The capacity is the one the device reports, which is [buffer_size] for
    a device that takes the size [open_audio] asked for.  Both device
    readings are taken between locking and unlocking the mutex, from the
    same state as [frames_written], and nothing else changes. *)
Theorem output_time_formula s v s' :
  output_time s = Ret v s' ->
  exists d,
    output_instance s = Some d /\
    let elapsed_frames :=
      frames_written s - (bufferSize d - bytesFree d) ÷ bytes_per_frame s in
    v = to_int (elapsed_frames * 1000 ÷ rate s) /\
    (int_range (elapsed_frames * 1000 ÷ rate s) ->
     v = elapsed_frames * 1000 ÷ rate s) /\
    (bufferSize d = buffer_size s ->
     elapsed_frames
     = frames_written s - (buffer_size s - bytesFree d) ÷ bytes_per_frame s) /\
    calls s' = calls s ++ [MutexLock; BufferSize; BytesFree; MutexUnlock] /\
    session_variables s' = session_variables s /\
    config s' = config s.
Proof.
  unfold output_time. intros H. invert_run. invert_arith.
  eexists. split; [eassumption|]. cbv zeta. unfold bytes_per_frame.
  split_and!; try reflexivity.
  - apply to_int_fits.
  - by intros ->.
  - by rewrite <- !app_assoc.
Qed.

(** X19: [output_time] returns whenever the quantities it handles fit their
    types: a device that reports a headroom within its capacity, a frame
    of positive size, a positive rate, and a frame counter of at most 2^52
    in size. *)
Lemma output_time_defined s d :
  output_instance s = Some d ->
  0 <= bytesFree d <= bufferSize d -> bufferSize d <= INT_MAX ->
  0 < bytes_per_frame s <= INT_MAX ->
  0 < rate s ->
  - 2 ^ 52 <= frames_written s <= 2 ^ 52 ->
  exists v s', output_time s = Ret v s'.
Proof.
  unfold bytes_per_frame, INT_MAX. intros Hd Hfree Hsize Hframe Hrate Hfw.
  assert (Hq : 0 <= (bufferSize d - bytesFree d) ÷ (buffer_bytes_per_channel s * chan s)
               <= bufferSize d - bytesFree d).
  { split; [apply Z.quot_pos; lia|].
    apply Z.quot_le_upper_bound; [lia|]. nia. }
  unfold output_time.
  run_step by reflexivity.
  run_step by (by apply query_run).
  run_step by (by apply query_run).
  do 4 run_step by reflexivity. simpl_state.
  run_step by (apply defined_run;
    unfold int_sub, int_mul, int64_sub, int64_mul;
    rewrite as_int_fits by (unfold int_range, INT_MIN, INT_MAX; lia);
    cbn [mbind option_bind];
    rewrite as_int_fits by (unfold int_range, INT_MIN, INT_MAX; lia);
    cbn [mbind option_bind];
    rewrite int_div_fits by (unfold int_range, INT_MIN, INT_MAX; lia);
    cbn [mbind option_bind];
    rewrite as_int64_fits by (unfold int64_range, INT64_MIN, INT64_MAX; lia);
    cbn [mbind option_bind];
    rewrite as_int64_fits by (unfold int64_range, INT64_MIN, INT64_MAX; lia);
    cbn [mbind option_bind];
    apply int64_div_fits; [lia|];
    apply quot_int64_range; [done|];
    unfold int64_range, INT64_MIN, INT64_MAX; lia).
  run_step by reflexivity. by eauto.
Qed.

End Clock.

(** ** Transport controls *)

Section Transport.
Context `{Qt : QtMultimedia}.

(** C4: on an open session, [flush time] sets [frames_written] to
    [time × rate / 1000] with a truncating division, resets the output
    object, starts it again and keeps the write channel the start returns,
    and broadcasts the condition variable; it does so under the mutex and
    for every [int] argument. *)
Theorem flush_resets_position time s d :
  output_instance s = Some d ->
  int_range time -> int_range (rate s) ->
  exists s',
    flush time s = Ret tt s' /\
    frames_written s' = time * rate s ÷ 1000 /\
    output_instance s' = Some (start (reset d)).1 /\
    buffer_instance s' = Some (start (reset d)).2 /\
    calls s' = calls s ++ [MutexLock; Reset; Start; CondBroadcast; MutexUnlock] /\
    chan s' = chan s /\ rate s' = rate s /\ buffer_size s' = buffer_size s /\
    buffer_bytes_per_channel s' = buffer_bytes_per_channel s /\
    config s' = config s.
Proof.
  intros Hd Htime Hrate.
  assert (Hpos : int64_mul time (rate s) ≫= (fun scaled => int64_div scaled 1000)
                 = Some (time * rate s ÷ 1000)).
  { rewrite int64_mul_of_ints by done. cbn [mbind option_bind].
    apply int64_div_fits; [lia|].
    apply quot_int64_range; [lia|].
    unfold int_range, INT_MIN, INT_MAX in *.
    unfold int64_range, INT64_MIN, INT64_MAX. nia. }
  unfold flush.
  run_step by reflexivity.
  run_step by reflexivity. simpl_state.
  run_step by (by apply defined_run).
  run_step by reflexivity.
  run_step by (by apply method_run).
  run_step by (by apply deref_output_run).
  do 4 run_step by reflexivity.
  eexists. split; [reflexivity|]. simpl_state.
  split_and!; try reflexivity. by rewrite <- !app_assoc.
Qed.

Lemma flush_inv time s u s' :
  flush time s = Ret u s' ->
  frames_written s' = time * rate s ÷ 1000 /\
  chan s' = chan s /\ rate s' = rate s /\
  buffer_bytes_per_channel s' = buffer_bytes_per_channel s /\
  is_Some (output_instance s') /\ is_Some (buffer_instance s').
Proof.
  unfold flush. intros H. invert_run. invert_arith.
  split_and!; try reflexivity; by eexists.
Qed.

Lemma pause_inv p s u s' :
  pause p s = Ret u s' ->
  exists d,
    output_instance s = Some d /\
    output_instance s' = Some (if p then suspend d else resume d) /\
    calls s' = calls s ++ [MutexLock; if p then Suspend else Resume;
                           CondBroadcast; MutexUnlock] /\
    keeps_variables s s'.
Proof.
  unfold pause. intros H. destruct p; invert_run.
  all: eexists; split; [eassumption|].
  all: split_and!; try reflexivity; try by rewrite <- !app_assoc.
  all: by unfold keeps_variables.
Qed.

Lemma buffer_free_inv s v s' :
  buffer_free s = Ret v s' ->
  exists d,
    output_instance s = Some d /\ v = bytesFree d /\
    output_instance s' = Some d /\
    calls s' = calls s ++ [MutexLock; BytesFree; MutexUnlock] /\
    keeps_variables s s'.
Proof.
  unfold buffer_free. intros H. invert_run.
  eexists. split; [eassumption|].
  split_and!; try reflexivity; try assumption; try by rewrite <- !app_assoc.
  by unfold keeps_variables.
Qed.

End Transport.

(** ** Writing *)

Section Writing.
Context `{Qt : QtMultimedia}.

(** C5: [write_audio data len] hands the bytes to the write channel of the
    device and adds [len / bytes_per_frame], truncated, to
    [frames_written], whatever [len] is (it does not look at the remainder
    of the division); its calls are the lock, the write and the unlock,
    with no wait; no other variable of the session changes. *)
Theorem write_audio_advances data len s s' :
  write_audio data len s = Ret tt s' ->
  exists d io,
    output_instance s = Some d /\ buffer_instance s = Some io /\
    output_instance s' = Some (write io data len d) /\
    frames_written s' = frames_written s + len ÷ bytes_per_frame s /\
    calls s' = calls s ++ [MutexLock; Write data len; MutexUnlock] /\
    chan s' = chan s /\ rate s' = rate s /\ buffer_size s' = buffer_size s /\
    buffer_bytes_per_channel s' = buffer_bytes_per_channel s /\
    buffer_instance s' = buffer_instance s /\
    config s' = config s.
Proof.
  unfold write_audio, bytes_per_frame. intros H. invert_run. invert_arith.
  do 2 eexists. split_and!; try eassumption; try reflexivity.
  by rewrite <- !app_assoc.
Qed.

(** [write_audio] has no loop: it never ends up waiting. *)
Lemma write_audio_never_waits data len s : write_audio data len s <> Waiting.
Proof.
  unfold write_audio, deref_buffer, method, deref_output.
  unfold pthread_mutex_lock, pthread_mutex_unlock, read, modify, defined,
    undefined, mbind, M_bind, mret, M_ret.
  simpl_state.
  destruct (buffer_instance s); [|done]. simpl_state.
  destruct (output_instance s); [|done]. simpl_state.
  destruct (int_mul _ _) as [frame|]; [|done].
  destruct (int_div _ _) as [frames|]; [|done].
  by destruct (int64_add _ _).
Qed.

(** X15: on an open session [write_audio] returns for every [int] length, as
    long as a frame fits an [int] and the counter stays within
    [int64_t]. *)
Lemma write_audio_defined data len s :
  session_open s ->
  int_range len -> bytes_per_frame s <= INT_MAX ->
  int64_range (frames_written s + len ÷ bytes_per_frame s) ->
  exists s', write_audio data len s = Ret tt s'.
Proof.
  unfold session_open, bytes_per_frame.
  intros ([d Hd] & [io Hio] & Hchan & Hbpc) Hlen Hframe Hfw.
  assert (Hpos : 0 < buffer_bytes_per_channel s * chan s) by nia.
  assert (Hq : int_range (len ÷ (buffer_bytes_per_channel s * chan s))).
  { unfold int_range, INT_MIN, INT_MAX in *.
    destruct (Z.le_gt_cases 0 len).
    - pose proof (Z.quot_pos len _ ltac:(done) Hpos).
      assert (len ÷ (buffer_bytes_per_channel s * chan s) <= len)
        by (apply Z.quot_le_upper_bound; nia). lia.
    - pose proof (Z.quot_pos (- len) _ ltac:(lia) Hpos).
      assert ((- len) ÷ (buffer_bytes_per_channel s * chan s) <= - len)
        by (apply Z.quot_le_upper_bound; nia).
      rewrite Z.quot_opp_l in * by lia. lia. }
  unfold write_audio.
  run_step by reflexivity.
  run_step by (by apply deref_buffer_run).
  run_step by (by apply method_run).
  do 2 run_step by reflexivity. simpl_state.
  run_step by (apply defined_run, as_int_fits;
               unfold int_range, INT_MIN, INT_MAX in *; lia).
  run_step by (by apply defined_run, int_div_fits; [lia|]).
  run_step by reflexivity. simpl_state.
  run_step by (by apply defined_run, as_int64_fits).
  run_step by reflexivity.
  by eexists.
Qed.

End Writing.

(** ** Waiting for the device *)

Section Waiting.
Context `{Qt : QtMultimedia}.

Lemma period_wait_loop_unfold rounds s :
  period_wait_loop rounds s
  = (space ← query BytesFree bytesFree;
     if space =? 0 then
       match rounds with
       | O => waiting
       | S rounds' => pthread_cond_timedwait;; period_wait_loop rounds'
       end
     else mret tt) s.
Proof. by destruct rounds. Qed.

Lemma drain_loop_unfold rounds s :
  drain_loop rounds s
  = (free ← query BytesFree bytesFree;
     size ← query BufferSize bufferSize;
     if free <? size then
       match rounds with
       | O => waiting
       | S rounds' => pthread_cond_timedwait;; drain_loop rounds'
       end
     else mret tt) s.
Proof. by destruct rounds. Qed.

Lemma keeps_variables_refl s : keeps_variables s s.
Proof. by unfold keeps_variables. Qed.

Lemma keeps_variables_trans s1 s2 s3 :
  keeps_variables s1 s2 -> keeps_variables s2 s3 -> keeps_variables s1 s3.
Proof.
  unfold keeps_variables.
  intros (-> & -> & -> & -> & -> & -> & ->) (-> & -> & -> & -> & -> & -> & ->).
  by split_and!.
Qed.

(** The wait of [period_wait] ends at the first poll that finds room in the
    buffer, after the device has played for that many waits. *)
Lemma period_wait_loop_inv rounds s u s' :
  period_wait_loop rounds s = Ret u s' ->
  exists d waits,
    output_instance s = Some d /\ (waits <= rounds)%nat /\
    output_instance s' = Some (Nat.iter waits elapse d) /\
    bytesFree (Nat.iter waits elapse d) <> 0 /\
    (forall j, (j < waits)%nat -> bytesFree (Nat.iter j elapse d) = 0) /\
    calls s' = calls s ++ polling [BytesFree] waits /\
    keeps_variables s s'.
Proof.
  revert s. induction rounds as [|rounds IH]; intros s H.
  all: rewrite period_wait_loop_unfold in H.
  all: apply bind_inv in H as (space & s1 & (d & Hd & -> & ->)%query_inv & H).
  all: destruct (Z.eqb_spec (bytesFree d) 0) as [Hfull|Hroom].
  - discriminate.
  - invert_run. exists d, 0%nat. simpl Nat.iter. cbn [polling]. simpl_state.
    split_and!; try done; intros; lia.
  - invert_run. rewrite Hd in H. cbn [fmap option_fmap option_map] in H.
    apply IH in H as (d' & waits & Hd' & Hle & Hout & Hfree & Hbefore & Hcalls & Hkeep).
    simpl_state. injection Hd' as <-.
    exists d, (S waits). rewrite Nat.iter_succ_r.
    split_and!; try done.
    + lia.
    + intros [|j] Hj; [done|]. rewrite Nat.iter_succ_r. apply Hbefore. lia.
    + rewrite Hcalls. cbn [polling]. by rewrite <- !app_assoc.
  - invert_run. exists d, 0%nat. simpl Nat.iter. cbn [polling]. simpl_state.
    split_and!; try done; intros; lia.
Qed.

(** The wait of [drain] ends at the first poll that finds the headroom no
    smaller than the buffer size. *)
Lemma drain_loop_inv rounds s u s' :
  drain_loop rounds s = Ret u s' ->
  exists d waits,
    output_instance s = Some d /\ (waits <= rounds)%nat /\
    output_instance s' = Some (Nat.iter waits elapse d) /\
    bufferSize (Nat.iter waits elapse d) <= bytesFree (Nat.iter waits elapse d) /\
    (forall j, (j < waits)%nat ->
       bytesFree (Nat.iter j elapse d) < bufferSize (Nat.iter j elapse d)) /\
    calls s' = calls s ++ polling [BytesFree; BufferSize] waits /\
    keeps_variables s s'.
Proof.
  revert s. induction rounds as [|rounds IH]; intros s H.
  all: rewrite drain_loop_unfold in H.
  all: apply bind_inv in H as (free & s1 & (d & Hd & -> & ->)%query_inv & H).
  all: apply bind_inv in H as (size & s2 & (d2 & Hd2 & -> & ->)%query_inv & H).
  all: simpl_state; rewrite Hd in Hd2; injection Hd2 as <-.
  all: destruct (Z.ltb_spec (bytesFree d) (bufferSize d)) as [Hbusy|Hempty].
  - discriminate.
  - invert_run. exists d, 0%nat. simpl Nat.iter. cbn [polling]. simpl_state.
    split_and!; try done; try (intros; lia); by rewrite <- !app_assoc.
  - invert_run. rewrite Hd in H. cbn [fmap option_fmap option_map] in H.
    apply IH in H as (d' & waits & Hd' & Hle & Hout & Hfree & Hbefore & Hcalls & Hkeep).
    simpl_state. injection Hd' as <-.
    exists d, (S waits). rewrite Nat.iter_succ_r.
    split_and!; try done.
    + lia.
    + intros [|j] Hj; [done|]. rewrite Nat.iter_succ_r. apply Hbefore. lia.
    + rewrite Hcalls. cbn [polling]. by rewrite <- !app_assoc.
  - invert_run. exists d, 0%nat. simpl Nat.iter. cbn [polling]. simpl_state.
    split_and!; try done; try (intros; lia); by rewrite <- !app_assoc.
Qed.

Lemma period_wait_inv rounds s u s' :
  period_wait rounds s = Ret u s' ->
  exists d waits,
    output_instance s = Some d /\ (waits <= rounds)%nat /\
    output_instance s' = Some (Nat.iter waits elapse d) /\
    bytesFree (Nat.iter waits elapse d) <> 0 /\
    keeps_variables s s'.
Proof.
  unfold period_wait. intros H.
  apply bind_inv in H as (? & s1 & ->%modify_inv & H).
  apply bind_inv in H as (? & s2 & H & ->%modify_inv).
  apply period_wait_loop_inv in H
    as (d & waits & Hd & Hle & Hout & Hfree & _ & _ & Hkeep).
  exists d, waits. simpl_state. by split_and!.
Qed.

Lemma drain_inv rounds s u s' :
  drain rounds s = Ret u s' ->
  exists d waits,
    output_instance s = Some d /\ (waits <= rounds)%nat /\
    output_instance s' = Some (Nat.iter waits elapse d) /\
    bufferSize (Nat.iter waits elapse d) <= bytesFree (Nat.iter waits elapse d) /\
    (forall j, (j < waits)%nat ->
       bytesFree (Nat.iter j elapse d) < bufferSize (Nat.iter j elapse d)) /\
    calls s'
    = calls s ++ MutexLock :: polling [BytesFree; BufferSize] waits ++ [MutexUnlock] /\
    keeps_variables s s'.
Proof.
  unfold drain. intros H.
  apply bind_inv in H as (? & s1 & ->%modify_inv & H).
  apply bind_inv in H as (? & s2 & H & ->%modify_inv).
  apply drain_loop_inv in H
    as (d & waits & Hd & Hle & Hout & Hfree & Hbefore & Hcalls & Hkeep).
  exists d, waits. simpl_state. split_and!; try done.
  rewrite Hcalls. by rewrite <- !app_assoc.
Qed.

(** C9: when [drain] returns, the last thing it did under the mutex was to
    find the headroom of the device equal to its whole buffer.  Every
    earlier poll found less and was followed by a wait; the device state at
    the return is the one that poll saw.  The device is taken to report a
    headroom that never exceeds its buffer size. *)
Theorem drain_returns_when_empty rounds s s' :
  (forall d : QAudioOutput, bytesFree d <= bufferSize d) ->
  drain rounds s = Ret tt s' ->
  exists d waits,
    output_instance s = Some d /\ (waits <= rounds)%nat /\
    output_instance s' = Some (Nat.iter waits elapse d) /\
    bytesFree (Nat.iter waits elapse d) = bufferSize (Nat.iter waits elapse d) /\
    (forall j, (j < waits)%nat ->
       bytesFree (Nat.iter j elapse d) < bufferSize (Nat.iter j elapse d)) /\
    calls s'
    = calls s ++ MutexLock :: polling [BytesFree; BufferSize] waits ++ [MutexUnlock] /\
    keeps_variables s s'.
Proof.
  intros Hdevice H.
  apply drain_inv in H
    as (d & waits & Hd & Hle & Hout & Hfree & Hbefore & Hcalls & Hkeep).
  exists d, waits. split_and!; try done.
  pose proof (Hdevice (Nat.iter waits elapse d)). lia.
Qed.

(** X17: [drain] does return once the device has emptied its buffer: if the
    headroom reaches the buffer size after [k] waits, [k] rounds are
    enough. *)
Lemma drain_returns rounds s d k :
  output_instance s = Some d ->
  (k <= rounds)%nat ->
  bufferSize (Nat.iter k elapse d) <= bytesFree (Nat.iter k elapse d) ->
  exists s', drain rounds s = Ret tt s'.
Proof.
  intros Hd Hk Hempty.
  assert (Hloop : forall s1, output_instance s1 = Some d ->
            exists s2, drain_loop rounds s1 = Ret tt s2).
  { clear s Hd. revert d k Hk Hempty.
    induction rounds as [|rounds IH]; intros d k Hk Hempty s1 Hd.
    all: rewrite drain_loop_unfold.
    all: run_step by (by apply query_run).
    all: run_step by (by apply query_run).
    all: destruct (Z.ltb_spec (bytesFree d) (bufferSize d)) as [Hbusy|Hdone];
      [|eexists; reflexivity].
    - assert (k = 0%nat) as -> by lia. simpl in Hempty. lia.
    - destruct k as [|k]; [simpl in Hempty; lia|].
      rewrite Nat.iter_succ_r in Hempty.
      run_step by reflexivity.
      apply (IH (elapse d) k); [lia|done|].
      simpl_state. by rewrite Hd. }
  unfold drain. run_step by reflexivity.
  destruct (Hloop (log MutexLock s)) as [s2 Hs2]; [done|].
  run_step by exact Hs2. eexists; reflexivity.
Qed.

End Waiting.

(** ** Volume *)

Section Volume.
Context `{Qt : QtMultimedia}.

Lemma stored_volume_store_volume v cfg : stored_volume (store_volume v cfg) = v.
Proof.
  destruct v as [l r]. unfold stored_volume, store_volume, aud_get_int, aud_set_int.
  cbn [cfg_values cfg_defaults StereoVolume.left StereoVolume.right].
  rewrite lookup_insert_eq, lookup_insert_ne, lookup_insert_eq; [done|].
  by intros [=].
Qed.

(** The factor is the literal zero exactly when the louder channel is at
    0; otherwise it is the power of ten [set_volume] writes, with
    [vol_max - 100] in the exponent. *)
Lemma volume_factor_cases vol_max factor :
  volume_factor vol_max = Some factor ->
  (vol_max = 0 /\ factor = FZero) \/
  (vol_max <> 0 /\ int_range (vol_max - 100) /\
   factor = FPowf (FInt 10)
              (FDiv (FDiv (FMul (FInt VOLUME_RANGE) (FInt (vol_max - 100)))
                          (FInt 100))
                    (FInt 20))).
Proof.
  unfold volume_factor. destruct (Z.eqb_spec vol_max 0) as [->|Hne].
  - intros [= <-]. by left.
  - intros H. invert_arith. injection H as <-. by right.
Qed.

Example volume_factor_silent : volume_factor 0 = Some FZero.
Proof. reflexivity. Qed.

Example volume_factor_full :
  volume_factor 100
  = Some (FPowf (FInt 10)
            (FDiv (FDiv (FMul (FInt 40) (FInt 0)) (FInt 100)) (FInt 20))).
Proof. reflexivity. Qed.

Lemma volume_factor_defined vol_max :
  INT_MIN + 100 <= vol_max <= INT_MAX -> is_Some (volume_factor vol_max).
Proof.
  intros Hrange. unfold volume_factor.
  destruct (vol_max =? 0); [by eexists|].
  unfold int_sub. rewrite as_int_fits; [by eexists|].
  unfold int_range, INT_MIN, INT_MAX in *. lia.
Qed.

(** C10: [set_volume] stores the pair in the settings, and [get_volume]
    then returns exactly that pair, with or without an open session.
    Without one, [set_volume] returns without calling the device: the
    output pointer stays null and the log is unchanged.  (With an open
    session the factor is computed from [vol_max - 100], which must be an
    [int].) *)
Theorem set_volume_get_volume l r s :
  output_instance s = None \/ INT_MIN + 100 <= Z.max l r <= INT_MAX ->
  exists s',
    set_volume {| StereoVolume.left := l; StereoVolume.right := r |} s
      = Ret tt s' /\
    get_volume s' = Ret {| StereoVolume.left := l; StereoVolume.right := r |} s' /\
    aud_get_int qtaudio "vol_left" (config s') = l /\
    aud_get_int qtaudio "vol_right" (config s') = r /\
    (output_instance s = None ->
     output_instance s' = None /\ calls s' = calls s).
Proof.
  intros Hcase.
  assert (Hrun : exists s', set_volume {| StereoVolume.left := l;
                                           StereoVolume.right := r |} s
                            = Ret tt s').
  { unfold set_volume. cbv zeta. cbn [StereoVolume.left StereoVolume.right].
    do 3 run_step by reflexivity. simpl_state.
    destruct (output_instance s) as [d|] eqn:Hd.
    - destruct Hcase as [?|Hrange]; [done|].
      destruct (volume_factor_defined _ Hrange) as [factor Hfactor].
      run_step by (by apply defined_run).
      eexists. by apply method_run.
    - by eexists. }
  destruct Hrun as [s' Hrun]. exists s'.
  pose proof (set_volume_inv _ _ _ _ Hrun) as (Hcfg & _ & _ & _ & _ & _ & _ & Hout).
  pose proof (stored_volume_store_volume
                {| StereoVolume.left := l; StereoVolume.right := r |} (config s))
    as Hstored.
  rewrite <- Hcfg in Hstored.
  split_and!; [done| | | |].
  - by rewrite get_volume_run, Hstored.
  - by apply (f_equal StereoVolume.left) in Hstored.
  - by apply (f_equal StereoVolume.right) in Hstored.
  - intros Hnone. by rewrite Hnone in Hout.
Qed.

End Volume.

(** ** The frame counter over a session *)

Section Counter.
Context `{Qt : QtMultimedia}.

Lemma write_audio_inv data len s u s' :
  write_audio data len s = Ret u s' ->
  chan s' = chan s /\ rate s' = rate s /\
  buffer_bytes_per_channel s' = buffer_bytes_per_channel s /\
  frames_written s' = frames_written s + len ÷ bytes_per_frame s /\
  is_Some (output_instance s') /\ buffer_instance s' = buffer_instance s.
Proof.
  unfold write_audio, bytes_per_frame. intros H. invert_run. invert_arith.
  by split_and!.
Qed.

Lemma output_time_inv s v s' :
  output_time s = Ret v s' -> session_variables s' = session_variables s.
Proof. unfold output_time. intros H. by invert_run. Qed.

(** What one operation does to the frame counter, and that it leaves the
    format of the session alone. *)
Lemma perform_frames o s s' :
  perform o s = Ret tt s' ->
  chan s' = chan s /\ rate s' = rate s /\
  buffer_bytes_per_channel s' = buffer_bytes_per_channel s /\
  match o with
  | op_flush time => frames_written s' = time * rate s ÷ 1000
  | op_write_audio _ len =>
      frames_written s' = frames_written s + len ÷ bytes_per_frame s
  | _ => frames_written s' = frames_written s
  end.
Proof.
  destruct o as [data len|p| |rounds|rounds| |time| |v]; cbn [perform]; intros H.
  - by apply write_audio_inv in H as (? & ? & ? & ? & _).
  - apply pause_inv in H as (_ & _ & _ & _ & Hkeep). by destruct Hkeep as (? & ? & _ & ? & ? & _).
  - apply bind_inv in H as (? & ? & H & [_ ->]%mret_inv).
    apply buffer_free_inv in H as (_ & _ & _ & _ & _ & Hkeep).
    by destruct Hkeep as (? & ? & _ & ? & ? & _).
  - apply period_wait_inv in H as (_ & _ & _ & _ & _ & _ & Hkeep).
    by destruct Hkeep as (? & ? & _ & ? & ? & _).
  - apply drain_inv in H as (_ & _ & _ & _ & _ & _ & _ & _ & Hkeep).
    by destruct Hkeep as (? & ? & _ & ? & ? & _).
  - apply bind_inv in H as (? & ? & H & [_ ->]%mret_inv).
    apply output_time_inv in H. unfold session_variables in H. by simplify_eq.
  - by apply flush_inv in H as (? & ? & ? & ? & _).
  - apply bind_inv in H as (? & ? & [_ ->]%get_volume_inv & [_ ->]%mret_inv). done.
  - by apply set_volume_inv in H as (_ & ? & ? & _ & ? & ? & _).
Qed.

Lemma reaches_format s0 s :
  reaches s0 s ->
  chan s = chan s0 /\ rate s = rate s0 /\
  buffer_bytes_per_channel s = buffer_bytes_per_channel s0.
Proof.
  induction 1 as [|o s1 s2 _ IH Hstep]; [done|].
  apply perform_frames in Hstep as (-> & -> & -> & _). exact IH.
Qed.

(** An open session stays open under every operation. *)
Lemma perform_session_open o s s' :
  session_open s -> perform o s = Ret tt s' -> session_open s'.
Proof.
  unfold session_open. intros (Hout & Hio & Hchan & Hbpc) H.
  pose proof (perform_frames _ _ _ H) as (-> & _ & -> & _).
  enough (Hs : is_Some (output_instance s') /\ is_Some (buffer_instance s'))
    by (destruct Hs; by split_and!).
  destruct o as [data len|p| |rounds|rounds| |time| |v]; cbn [perform] in H.
  - apply write_audio_inv in H as (_ & _ & _ & _ & ? & ->). by split.
  - apply pause_inv in H as (d & _ & -> & _ & Hkeep).
    destruct Hkeep as (_ & _ & _ & _ & _ & -> & _). by split.
  - apply bind_inv in H as (? & ? & H & [_ ->]%mret_inv).
    apply buffer_free_inv in H as (d & _ & _ & -> & _ & Hkeep).
    destruct Hkeep as (_ & _ & _ & _ & _ & -> & _). by split.
  - apply period_wait_inv in H as (d & waits & _ & _ & -> & _ & Hkeep).
    destruct Hkeep as (_ & _ & _ & _ & _ & -> & _). by split.
  - apply drain_inv in H as (d & waits & _ & _ & -> & _ & _ & _ & Hkeep).
    destruct Hkeep as (_ & _ & _ & _ & _ & -> & _). by split.
  - apply bind_inv in H as (? & ? & H & [_ ->]%mret_inv).
    apply output_time_inv in H. unfold session_variables in H.
    injection H as _ _ _ _ _ -> ->. by split.
  - by apply flush_inv in H as (_ & _ & _ & _ & ? & ?).
  - by apply bind_inv in H as (? & ? & [_ ->]%get_volume_inv & [_ ->]%mret_inv).
  - apply set_volume_inv in H as (_ & _ & _ & _ & _ & _ & -> & Hset).
    destruct Hout as [d Hd]. rewrite Hd in Hset.
    destruct Hset as (factor & _ & -> & _). by split.
Qed.

Lemma reaches_session_open s0 s :
  session_open s0 -> reaches s0 s -> session_open s.
Proof.
  intros Hopen. induction 1 as [|o s1 s2 _ IH Hstep]; [done|].
  by apply (perform_session_open o s1).
Qed.

Lemma plays_reaches s0 s : plays s0 s -> reaches s0 s.
Proof.
  induction 1 as [|o s1 s2 _ IH _ Hstep]; [apply reaches_here|].
  by apply (reaches_step _ o s1).
Qed.

(** C6: along every sequence of operations on an open session, the frame
    counter goes down at no step other than a flush, which sets it to
    [time × rate / 1000]: a write of a non-negative length leaves it equal
    or larger, and every other operation leaves it as it is. *)
Theorem frames_written_monotone s0 s o s' :
  session_open s0 ->
  reaches s0 s ->
  perform o s = Ret tt s' ->
  match o with
  | op_flush time => frames_written s' = time * rate s0 ÷ 1000
  | op_write_audio _ len => 0 <= len -> frames_written s <= frames_written s'
  | _ => frames_written s' = frames_written s
  end.
Proof.
  intros (_ & _ & Hchan & Hbpc) Hreach Hstep.
  apply reaches_format in Hreach as (Hc & Hr & Hb).
  apply perform_frames in Hstep as (_ & _ & _ & Hstep).
  destruct o; try done.
  - intros Hlen. rewrite Hstep. unfold bytes_per_frame. rewrite Hc, Hb.
    pose proof (Z.quot_pos len (buffer_bytes_per_channel s0 * chan s0)
                  Hlen ltac:(nia)). lia.
  - by rewrite <- Hr.
Qed.

(** X25: over a run with no flush and no write of negative length, the
    counter ends at least where it started. *)
Lemma frames_written_never_decreases s0 s :
  session_open s0 -> plays s0 s -> frames_written s0 <= frames_written s.
Proof.
  intros Hopen. induction 1 as [|o s1 s2 Hplays IH Hquiet Hstep]; [done|].
  pose proof (reaches_session_open _ _ Hopen (plays_reaches _ _ Hplays))
    as (_ & _ & Hchan & Hbpc).
  apply perform_frames in Hstep as (_ & _ & _ & Hstep).
  destruct o; cbn [never_rewinds] in Hquiet; try done; try lia.
  rewrite Hstep. unfold bytes_per_frame.
  pose proof (Z.quot_pos len (buffer_bytes_per_channel s1 * chan s1)
                Hquiet ltac:(nia)). lia.
Qed.

End Counter.

(** ** Runs that stop or wait *)

Section Failing.
Context `{Qt : QtMultimedia}.

Lemma query_undefined c f s : output_instance s = None -> query c f s = Undefined.
Proof.
  intros Hd. unfold query, deref_output, read, defined, mbind, M_bind.
  by rewrite Hd.
Qed.

Lemma method_undefined c f s : output_instance s = None -> method c f s = Undefined.
Proof.
  intros Hd. unfold method, deref_output, read, defined, mbind, M_bind.
  by rewrite Hd.
Qed.

Lemma never_waits_bind {A B} (m : M A) (f : A -> M B) :
  never_waits m -> (forall a, never_waits (f a)) -> never_waits (m ≫= f).
Proof.
  intros Hm Hf s. unfold mbind, M_bind.
  destruct (m s) as [a s1| |] eqn:Hs; [apply Hf|done|by apply Hm in Hs].
Qed.

Lemma never_waits_mret {A} (a : A) : never_waits (mret a).
Proof. done. Qed.

Lemma never_waits_read {A} (f : state -> A) : never_waits (read f).
Proof. done. Qed.

Lemma never_waits_modify f : never_waits (modify f).
Proof. done. Qed.

Lemma never_waits_defined {A} (o : option A) : never_waits (defined o).
Proof. by destruct o. Qed.

End Failing.

Create HintDb no_wait.
#[global] Hint Resolve never_waits_mret never_waits_read never_waits_modify
  never_waits_defined : no_wait.

(** Goes through a sequence of steps, none of which is a wait loop. *)
Ltac no_wait :=
  repeat first
    [ apply never_waits_bind; [|intros ?]
    | progress auto with no_wait
    | match goal with |- never_waits (match ?x with _ => _ end) => destruct x end
    | match goal with |- never_waits (if ?x then _ else _) => destruct x end ].

Section NoWait.
Context `{Formats : audio_formats} `{Qt : QtMultimedia}.

Lemma never_waits_write_audio data len : never_waits (write_audio data len).
Proof.
  unfold write_audio, method, deref_buffer, deref_output, pthread_mutex_lock,
    pthread_mutex_unlock. no_wait.
Qed.

Lemma never_waits_output_time : never_waits output_time.
Proof.
  unfold output_time, query, deref_output, pthread_mutex_lock,
    pthread_mutex_unlock. no_wait.
Qed.

(** Only [period_wait] and [drain] can be left waiting: no other entry
    point has a wait in it. *)
Lemma entry_points_never_wait :
  never_waits init /\ never_waits get_volume /\
  (forall v, never_waits (set_volume v)) /\
  (forall format rate_ chan_, never_waits (open_audio format rate_ chan_)) /\
  never_waits close_audio /\ never_waits buffer_free /\
  (forall data len, never_waits (write_audio data len)) /\
  never_waits output_time /\
  (forall p, never_waits (pause p)) /\
  (forall time, never_waits (flush time)).
Proof.
  split_and!; intros.
  - unfold init. no_wait.
  - unfold get_volume, get_int. no_wait.
  - unfold set_volume, set_int, method, deref_output. cbv zeta. no_wait.
  - intros s. destruct (find_format format FormatMap) as [o|] eqn:Hm.
    + by rewrite (open_audio_dangling _ _ _ _ _ Hm).
    + by rewrite (open_audio_unsupported _ _ _ _ Hm).
  - unfold close_audio, method, deref_output. no_wait.
  - unfold buffer_free, query, deref_output, pthread_mutex_lock,
      pthread_mutex_unlock. no_wait.
  - apply never_waits_write_audio.
  - apply never_waits_output_time.
  - unfold pause, method, deref_output, pthread_mutex_lock,
      pthread_mutex_unlock, pthread_cond_broadcast. no_wait.
  - unfold flush, method, deref_output, pthread_mutex_lock,
      pthread_mutex_unlock, pthread_cond_broadcast. no_wait.
Qed.

End NoWait.

(** ** The bytes of a sample *)

(** X5: for a sample of a whole number [k] of bytes, the expression
    [sample_size / 8 + sample_size % 16 / 8] of [open_audio] is [k] rounded
    up to an even number of bytes: a sample of 8 or 24 bits would count
    as 2 or 4 bytes. *)
Theorem bytes_per_channel_even k :
  0 <= k < 2 ^ 28 ->
  bytes_per_channel (8 * k) = k + k mod 2.
Proof.
  intros Hk. unfold bytes_per_channel, uint_add, uint_div, uint_rem, uint.
  rewrite Z.rem_mod_nonneg by lia.
  rewrite !Z.quot_div_nonneg by (try apply Z.mod_pos_bound; lia).
  replace (8 * k) with (k * 8) by lia. rewrite Z.div_mul by lia.
  replace (k * 8 mod 16) with ((k mod 2) * 8).
  2: { replace 16 with (2 * 8) by lia. rewrite Z.mul_mod_distr_r by lia. done. }
  pose proof (Z.mod_pos_bound k 2 ltac:(lia)).
  rewrite (Z.mod_small k) by lia.
  rewrite (Z.mod_small (k mod 2 * 8)) by lia.
  rewrite Z.div_mul by lia.
  rewrite (Z.mod_small (k mod 2)) by lia.
  rewrite (Z.mod_small (k + k mod 2)) by lia.
  apply to_int_fits. unfold int_range, INT_MIN, INT_MAX. lia.
Qed.

(** ** Sessions from [init] to [close_audio] *)

Section Lifecycle.
Context `{Formats : audio_formats} `{Qt : QtMultimedia}.

(** X1: [init] always succeeds and touches nothing but the defaults of the
    "qtaudio" settings: right after it [get_volume] returns, for each
    channel, the stored volume if there is one and 100 otherwise, and
    the settings outside "qtaudio" read as before. *)
Theorem init_default_volume s :
  exists s',
    init s = Ret true s' /\
    session_variables s' = session_variables s /\
    calls s' = calls s /\
    get_volume s'
    = Ret {| StereoVolume.left :=
               default 100 (cfg_values (config s) !! (qtaudio, "vol_left"%string));
             StereoVolume.right :=
               default 100 (cfg_values (config s) !! (qtaudio, "vol_right"%string)) |}
          s' /\
    forall name,
      aud_get_int None name (config s') = aud_get_int None name (config s).
Proof.
  eexists. split; [reflexivity|]. simpl_state.
  split; [reflexivity|]. split; [reflexivity|]. split.
  - rewrite get_volume_run. simpl_state. f_equal.
    unfold stored_volume, aud_get_int, aud_config_set_defaults, defaults.
    cbn [cfg_values cfg_defaults foldr fst snd].
    rewrite lookup_insert_eq, lookup_insert_ne, lookup_insert_eq by (by intros [=]).
    by destruct (cfg_values (config s) !! _), (cfg_values (config s) !! _).
  - intros name. unfold aud_get_int, aud_config_set_defaults, defaults.
    cbn [cfg_values cfg_defaults foldr fst snd].
    by rewrite !lookup_insert_ne by done.
Qed.

Lemma close_audio_run s d :
  output_instance s = Some d ->
  close_audio s
  = Ret tt (set_output_instance None
              (log Delete (set_output_instance (Some (stop d)) (log Stop s)))).
Proof.
  intros Hd. unfold close_audio.
  run_step by (by apply method_run).
  run_step by reflexivity.
  reflexivity.
Qed.

(** X10: with an output object, [close_audio] returns: it stops the
    object, deletes it and nulls [output_instance], and leaves everything
    else as it was, the pointer to the write channel of the deleted object
    included. *)
Theorem close_audio_releases s d :
  output_instance s = Some d ->
  exists s',
    close_audio s = Ret tt s' /\
    output_instance s' = None /\
    calls s' = calls s ++ [Stop; Delete] /\
    keeps_variables s s'.
Proof.
  intros Hd. eexists. split; [by apply close_audio_run|]. simpl_state.
  split; [reflexivity|]. split; [by rewrite <- app_assoc|].
  by unfold keeps_variables.
Qed.

(** X11: nothing guards against a missing output object: with
    [output_instance] null (before the first [open_audio], after a failed
    one, after [close_audio]), [close_audio] and every operation but
    [get_volume] and [set_volume] dereference the null pointer. *)
Theorem closed_session_undefined o s :
  output_instance s = None ->
  close_audio s = Undefined /\
  (touches_device o -> perform o s = Undefined).
Proof.
  intros Hd. split.
  - unfold close_audio. by apply bind_undefined, method_undefined.
  - destruct o as [data len|p| |rounds|rounds| |time| |v];
      cbn [touches_device perform]; try done; intros _.
    + unfold write_audio. run_step by reflexivity.
      destruct (buffer_instance s) as [io|] eqn:Hio.
      * run_step by (by apply deref_buffer_run).
        by apply bind_undefined, method_undefined.
      * apply bind_undefined. unfold deref_buffer, read, defined, mbind, M_bind.
        simpl_state. by rewrite Hio.
    + unfold pause. run_step by reflexivity.
      apply bind_undefined. destruct p; by apply method_undefined.
    + apply bind_undefined. unfold buffer_free. run_step by reflexivity.
      by apply bind_undefined, query_undefined.
    + unfold period_wait. run_step by reflexivity.
      apply bind_undefined. rewrite period_wait_loop_unfold.
      by apply bind_undefined, query_undefined.
    + unfold drain. run_step by reflexivity.
      apply bind_undefined. rewrite drain_loop_unfold.
      by apply bind_undefined, query_undefined.
    + apply bind_undefined. unfold output_time. run_step by reflexivity.
      by apply bind_undefined, query_undefined.
    + unfold flush. run_step by reflexivity. run_step by reflexivity.
      destruct (int64_mul time (rate (log MutexLock s)) ≫= _) as [position|] eqn:Hp.
      * run_step by (by apply defined_run).
        run_step by reflexivity.
        by apply bind_undefined, method_undefined.
      * by apply bind_undefined.
Qed.

End Lifecycle.

(** ** The clock at its limits *)

Section Limits.
Context `{Formats : audio_formats} `{Qt : QtMultimedia}.

(** The value and the calls of a call of [output_time] that returns. *)
Lemma output_time_value s v s' :
  output_time s = Ret v s' ->
  exists d,
    output_instance s = Some d /\
    bytes_per_frame s <> 0 /\ rate s <> 0 /\
    v = to_int ((frames_written s
                 - (bufferSize d - bytesFree d) ÷ bytes_per_frame s)
                * 1000 ÷ rate s) /\
    calls s' = calls s ++ [MutexLock; BufferSize; BytesFree; MutexUnlock].
Proof.
  unfold output_time, bytes_per_frame. intros H. invert_run. invert_arith.
  eexists. split; [eassumption|]. split_and!; try done.
  by rewrite <- !app_assoc.
Qed.

Lemma output_time_run s d :
  output_instance s = Some d ->
  int_range (bufferSize d - bytesFree d) ->
  int_range (bytes_per_frame s) -> bytes_per_frame s <> 0 ->
  int_range ((bufferSize d - bytesFree d) ÷ bytes_per_frame s) ->
  int64_range (frames_written s
               - (bufferSize d - bytesFree d) ÷ bytes_per_frame s) ->
  int64_range ((frames_written s
                - (bufferSize d - bytesFree d) ÷ bytes_per_frame s) * 1000) ->
  rate s <> 0 ->
  int64_range ((frames_written s
                - (bufferSize d - bytesFree d) ÷ bytes_per_frame s)
               * 1000 ÷ rate s) ->
  exists s',
    output_time s
    = Ret (to_int ((frames_written s
                    - (bufferSize d - bytesFree d) ÷ bytes_per_frame s)
                   * 1000 ÷ rate s)) s'.
Proof.
  unfold bytes_per_frame. intros Hd Hqueued Hframe Hnz Hq Hplayed Hscaled Hrate Hout.
  unfold output_time.
  run_step by reflexivity.
  run_step by (by apply query_run).
  run_step by (by apply query_run).
  do 4 run_step by reflexivity. simpl_state.
  run_step by (apply defined_run;
    unfold int_sub, int_mul, int64_sub, int64_mul;
    rewrite (as_int_fits _ Hqueued); cbn [mbind option_bind];
    rewrite (as_int_fits _ Hframe); cbn [mbind option_bind];
    rewrite (int_div_fits _ _ Hnz Hq); cbn [mbind option_bind];
    rewrite (as_int64_fits _ Hplayed); cbn [mbind option_bind];
    rewrite (as_int64_fits _ Hscaled); cbn [mbind option_bind];
    by apply int64_div_fits).
  run_step by reflexivity. by eexists.
Qed.

Lemma write_audio_divisor data len s u s' :
  write_audio data len s = Ret u s' -> bytes_per_frame s <> 0.
Proof.
  unfold write_audio, bytes_per_frame. intros H. invert_run. invert_arith. done.
Qed.

(** X21: the plugin never checks the channel count or the rate it is
    given: in a session with frames of zero bytes [write_audio] and
    [output_time] divide by zero, and so does [output_time] at a rate of
    zero. *)
Theorem zero_divisor_undefined data len s :
  (bytes_per_frame s = 0 ->
   write_audio data len s = Undefined /\ output_time s = Undefined) /\
  (rate s = 0 -> output_time s = Undefined).
Proof.
  split; [intros Hframe; split|intros Hrate].
  - destruct (write_audio data len s) as [u s'| |] eqn:H; [|done|].
    + by apply write_audio_divisor in H.
    + by apply never_waits_write_audio in H.
  - destruct (output_time s) as [v s'| |] eqn:H; [|done|].
    + by apply output_time_value in H as (d & _ & ? & _).
    + by apply never_waits_output_time in H.
  - destruct (output_time s) as [v s'| |] eqn:H; [|done|].
    + by apply output_time_value in H as (d & _ & _ & ? & _).
    + by apply never_waits_output_time in H.
Qed.

(** X20: the clock never runs ahead of the audio handed over: when the
    device holds no more than was written, [output_time] lies between zero
    and the time of the frames written. *)
Theorem output_time_between s v s' d :
  output_time s = Ret v s' ->
  output_instance s = Some d ->
  bytesFree d <= bufferSize d ->
  0 < bytes_per_frame s -> 0 < rate s ->
  (bufferSize d - bytesFree d) ÷ bytes_per_frame s <= frames_written s ->
  frames_written s * 1000 ÷ rate s <= INT_MAX ->
  0 <= v <= frames_written s * 1000 ÷ rate s.
Proof.
  intros H Hd Hfree Hframe Hrate Hqueued Hmax.
  apply output_time_value in H as (d' & Hd' & _ & _ & -> & _).
  rewrite Hd in Hd'. injection Hd' as <-.
  set (queued := (bufferSize d - bytesFree d) ÷ bytes_per_frame s) in *.
  assert (Hq : 0 <= queued) by (apply Z.quot_pos; lia).
  assert (Hlow : 0 <= (frames_written s - queued) * 1000 ÷ rate s)
    by (apply Z.quot_pos; lia).
  assert (Hhigh : (frames_written s - queued) * 1000 ÷ rate s
                  <= frames_written s * 1000 ÷ rate s)
    by (apply Z.quot_le_mono; lia).
  rewrite to_int_fits; [lia|].
  unfold int_range, INT_MIN, INT_MAX in *. lia.
Qed.

Lemma flush_run time s d :
  output_instance s = Some d ->
  int_range time -> int_range (rate s) ->
  exists s',
    flush time s = Ret tt s' /\
    frames_written s' = time * rate s ÷ 1000 /\
    output_instance s' = Some (start (reset d)).1 /\
    chan s' = chan s /\ rate s' = rate s /\
    buffer_bytes_per_channel s' = buffer_bytes_per_channel s.
Proof.
  intros Hd Htime Hrate.
  assert (Hpos : int64_mul time (rate s) ≫= (fun scaled => int64_div scaled 1000)
                 = Some (time * rate s ÷ 1000)).
  { rewrite int64_mul_of_ints by done. cbn [mbind option_bind].
    apply int64_div_fits; [lia|].
    apply quot_int64_range; [lia|].
    unfold int_range, INT_MIN, INT_MAX in *.
    unfold int64_range, INT64_MIN, INT64_MAX. nia. }
  unfold flush.
  run_step by reflexivity.
  run_step by reflexivity. simpl_state.
  run_step by (by apply defined_run).
  run_step by reflexivity.
  run_step by (by apply method_run).
  run_step by (by apply deref_output_run).
  do 4 run_step by reflexivity.
  eexists. split; [reflexivity|]. simpl_state. by split_and!.
Qed.

(** X22: after a seek the clock reads the target, give or take the one
    millisecond lost by rounding the position to a whole frame: with the
    restarted device reporting an empty buffer, [output_time] right after
    [flush time] is [time] or [time - 1], and [time] when the position is a
    whole number of frames. *)
Theorem flush_then_output_time time s d :
  output_instance s = Some d ->
  bytesFree (start (reset d)).1 = bufferSize (start (reset d)).1 ->
  0 <= time <= INT_MAX ->
  1000 <= rate s <= INT_MAX ->
  int_range (bytes_per_frame s) -> bytes_per_frame s <> 0 ->
  exists v s',
    (flush time ≫= fun _ => output_time) s = Ret v s' /\
    time - 1 <= v <= time /\
    ((time * rate s) mod 1000 = 0 -> v = time).
Proof.
  intros Hd Hempty Htime Hrate Hframe Hnz.
  destruct (flush_run time s d Hd) as (s1 & Hflush & Hfw & Hd1 & Hch & Hr & Hb).
  { unfold int_range, INT_MIN, INT_MAX in *. lia. }
  { unfold int_range, INT_MIN, INT_MAX in *. lia. }
  assert (Hbpf : bytes_per_frame s1 = bytes_per_frame s)
    by (unfold bytes_per_frame; by rewrite Hch, Hb).
  set (r := rate s) in *.
  set (frames := time * r ÷ 1000) in *.
  assert (Hframes : frames = time * r / 1000)
    by (apply Z.quot_div_nonneg; lia).
  assert (Hf0 : 0 <= frames) by (rewrite Hframes; apply Z.div_pos; lia).
  assert (Hv : frames * 1000 ÷ r = frames * 1000 / r)
    by (apply Z.quot_div_nonneg; lia).
  pose proof (Z.div_mod (time * r) 1000 ltac:(lia)) as Hdm1.
  pose proof (Z.mod_pos_bound (time * r) 1000 ltac:(lia)) as Hm1.
  pose proof (Z.div_mod (frames * 1000) r ltac:(lia)) as Hdm2.
  pose proof (Z.mod_pos_bound (frames * 1000) r ltac:(lia)) as Hm2.
  rewrite <- Hframes in Hdm1.
  assert (Hprod : 0 <= time * r <= (2 ^ 31 - 1) * (2 ^ 31 - 1))
    by (unfold INT_MAX in *; split; [lia|apply Z.mul_le_mono_nonneg; lia]).
  assert (Hupper : frames * 1000 / r <= time).
  { apply Z.div_le_upper_bound; lia. }
  assert (Hlower : time - 1 <= frames * 1000 / r).
  { apply Z.div_le_lower_bound; [lia|].
    replace (r * (time - 1)) with (time * r - r) by lia. lia. }
  assert (Hbounds : time - 1 <= frames * 1000 ÷ r <= time) by (rewrite Hv; lia).
  destruct (output_time_run s1 _ Hd1) as [s2 Hout].
  all: rewrite ?Hbpf, ?Hempty, ?Hfw, ?Hr, ?Z.sub_diag, ?Z.quot_0_l, ?Z.sub_0_r
    by done; fold r; fold frames; try done.
  all: try (unfold int_range, INT_MIN, INT_MAX in *;
            unfold int64_range, INT64_MIN, INT64_MAX; lia).
  rewrite Hbpf, Hempty, Hfw, Hr, Z.sub_diag, Z.quot_0_l, Z.sub_0_r in Hout by done.
  fold r in Hout. fold frames in Hout.
  rewrite to_int_fits in Hout
    by (unfold int_range, INT_MIN, INT_MAX in *; lia).
  exists (frames * 1000 ÷ r), s2.
  split; [by rewrite (bind_run _ _ _ _ _ Hflush)|]. split; [done|].
  intros Hwhole. rewrite Hv. rewrite Hwhole in Hdm1.
  replace (frames * 1000) with (time * r) by lia. by apply Z.div_mul; lia.
Qed.

End Limits.

(** ** Waiting, seen from the caller *)

Section Blocking.
Context `{Qt : QtMultimedia}.

(** X14: [period_wait] returns only with room in the buffer:
    [buffer_free], called right after it, returns a non-zero headroom. *)
Theorem period_wait_then_buffer_free rounds s v s' :
  (period_wait rounds ≫= fun _ => buffer_free) s = Ret v s' ->
  v <> 0.
Proof.
  intros (? & s1 & Hwait & Hfree)%bind_inv.
  apply period_wait_inv in Hwait as (d & waits & _ & _ & Hout & Hroom & _).
  apply buffer_free_inv in Hfree as (d' & Hd' & -> & _).
  rewrite Hout in Hd'. by injection Hd' as <-.
Qed.

(** X12: [period_wait] returns once the device has room: if the headroom
    is non-zero after [k] waits of fifty milliseconds, [k] rounds are
    enough. *)
Theorem period_wait_returns rounds s d k :
  output_instance s = Some d ->
  (k <= rounds)%nat ->
  bytesFree (Nat.iter k elapse d) <> 0 ->
  exists s', period_wait rounds s = Ret tt s'.
Proof.
  intros Hd Hk Hroom.
  assert (Hloop : forall s1, output_instance s1 = Some d ->
            exists s2, period_wait_loop rounds s1 = Ret tt s2).
  { clear s Hd. revert d k Hk Hroom.
    induction rounds as [|rounds IH]; intros d k Hk Hroom s1 Hd.
    all: rewrite period_wait_loop_unfold.
    all: run_step by (by apply query_run).
    all: destruct (Z.eqb_spec (bytesFree d) 0) as [Hfull|Hfree];
      [|eexists; reflexivity].
    - assert (k = 0%nat) as -> by lia. simpl in Hroom. lia.
    - destruct k as [|k]; [simpl in Hroom; lia|].
      rewrite Nat.iter_succ_r in Hroom.
      run_step by reflexivity.
      apply (IH (elapse d) k); [lia|done|].
      simpl_state. by rewrite Hd. }
  unfold period_wait. run_step by reflexivity.
  destruct (Hloop (log MutexLock s)) as [s2 Hs2]; [done|].
  run_step by exact Hs2. eexists; reflexivity.
Qed.

(** X13: while the device has no room, [period_wait] does not return: it
    is still waiting, with the mutex taken, when its rounds are used
    up. *)
Theorem period_wait_blocks rounds s d :
  output_instance s = Some d ->
  (forall j, (j <= rounds)%nat -> bytesFree (Nat.iter j elapse d) = 0) ->
  period_wait rounds s = Waiting.
Proof.
  intros Hd Hfull.
  assert (Hloop : forall s1, output_instance s1 = Some d ->
            period_wait_loop rounds s1 = Waiting).
  { clear s Hd. revert d Hfull.
    induction rounds as [|rounds IH]; intros d Hfull s1 Hd.
    all: rewrite period_wait_loop_unfold.
    all: run_step by (by apply query_run).
    all: pose proof (Hfull 0%nat ltac:(lia)) as H0; simpl in H0; rewrite H0.
    all: cbv beta iota; change (0 =? 0) with true; cbv iota.
    - reflexivity.
    - run_step by reflexivity.
      apply (IH (elapse d)).
      + intros j Hj. rewrite <- Nat.iter_succ_r. apply Hfull. lia.
      + simpl_state. by rewrite Hd. }
  unfold period_wait. run_step by reflexivity.
  by apply bind_waiting, Hloop.
Qed.

(** X18: while the device holds queued audio, [drain] does not return. *)
Theorem drain_blocks rounds s d :
  output_instance s = Some d ->
  (forall j, (j <= rounds)%nat ->
     bytesFree (Nat.iter j elapse d) < bufferSize (Nat.iter j elapse d)) ->
  drain rounds s = Waiting.
Proof.
  intros Hd Hbusy.
  assert (Hloop : forall s1, output_instance s1 = Some d ->
            drain_loop rounds s1 = Waiting).
  { clear s Hd. revert d Hbusy.
    induction rounds as [|rounds IH]; intros d Hbusy s1 Hd.
    all: rewrite drain_loop_unfold.
    all: run_step by (by apply query_run).
    all: run_step by (by apply query_run).
    all: pose proof (Hbusy 0%nat ltac:(lia)) as H0; simpl in H0.
    all: apply Z.ltb_lt in H0; rewrite H0; cbv iota.
    - reflexivity.
    - run_step by reflexivity.
      apply (IH (elapse d)).
      + intros j Hj. rewrite <- Nat.iter_succ_r. apply Hbusy. lia.
      + simpl_state. by rewrite Hd. }
  unfold drain. run_step by reflexivity.
  by apply bind_waiting, Hloop.
Qed.

End Blocking.

(** ** The mutex *)


Section Locking.
Context `{Formats : audio_formats} `{Qt : QtMultimedia}.

Lemma write_audio_calls data len s u s' :
  write_audio data len s = Ret u s' ->
  calls s' = calls s ++ [MutexLock; Write data len; MutexUnlock] /\
  buffer_size s' = buffer_size s.
Proof.
  unfold write_audio. intros H. invert_run. invert_arith.
  split; [|done]. by rewrite <- !app_assoc.
Qed.

Lemma flush_calls time s u s' :
  flush time s = Ret u s' ->
  calls s' = calls s ++ [MutexLock; Reset; Start; CondBroadcast; MutexUnlock] /\
  buffer_size s' = buffer_size s.
Proof.
  unfold flush. intros H. invert_run. invert_arith.
  split; [|done]. by rewrite <- !app_assoc.
Qed.




End Locking.

(** ** The volume and the device *)

Section Gain.
Context `{Qt : QtMultimedia}.

(** X2: the gain handed to the device depends on the louder channel only:
    two volumes with the same maximum make the same [setVolume] call and
    leave the device in the same state, and the gain is the literal zero
    exactly when that maximum is 0. *)
Theorem set_volume_louder_channel v1 v2 s s1 s2 d :
  output_instance s = Some d ->
  Z.max (StereoVolume.left v1) (StereoVolume.right v1)
  = Z.max (StereoVolume.left v2) (StereoVolume.right v2) ->
  set_volume v1 s = Ret tt s1 ->
  set_volume v2 s = Ret tt s2 ->
  output_instance s1 = output_instance s2 /\
  exists factor,
    calls s1 = calls s ++ [SetVolume factor] /\
    calls s2 = calls s ++ [SetVolume factor] /\
    output_instance s1 = Some (setVolume factor d) /\
    (factor = FZero <->
     Z.max (StereoVolume.left v1) (StereoVolume.right v1) = 0).
Proof.
  intros Hd Hmax H1 H2.
  apply set_volume_inv in H1 as (_ & _ & _ & _ & _ & _ & _ & H1).
  apply set_volume_inv in H2 as (_ & _ & _ & _ & _ & _ & _ & H2).
  rewrite Hd in H1, H2.
  destruct H1 as (factor & Hfactor & Hout1 & Hcalls1).
  destruct H2 as (factor2 & Hfactor2 & Hout2 & Hcalls2).
  rewrite <- Hmax, Hfactor in Hfactor2. injection Hfactor2 as <-.
  split; [by rewrite Hout1, Hout2|].
  exists factor. split_and!; try done.
  apply volume_factor_cases in Hfactor as [[-> ->]|(Hne & _ & ->)]; [done|].
  split; [discriminate|done].
Qed.

(** X3: [set_volume] writes the two volume keys of the settings and no
    other: every other setting reads as before. *)
Theorem set_volume_keeps_other_settings v s s' section name :
  set_volume v s = Ret tt s' ->
  (section, name) <> (qtaudio, "vol_left"%string) ->
  (section, name) <> (qtaudio, "vol_right"%string) ->
  aud_get_int section name (config s') = aud_get_int section name (config s).
Proof.
  intros H Hleft Hright.
  apply set_volume_inv in H as (-> & _).
  unfold store_volume, aud_get_int, aud_set_int. cbn [cfg_values cfg_defaults].
  by rewrite !lookup_insert_ne by done.
Qed.

End Gain.

(** ** The format and the writes of a session *)

Section Session.
Context `{Qt : QtMultimedia}.

Lemma perform_buffer_size o s s' :
  perform o s = Ret tt s' -> buffer_size s' = buffer_size s.
Proof.
  destruct o as [data len|p| |rounds|rounds| |time| |v]; cbn [perform]; intros H.
  - by apply write_audio_calls in H as [_ ?].
  - apply pause_inv in H as (_ & _ & _ & _ & Hkeep).
    by destruct Hkeep as (_ & _ & ? & _).
  - apply bind_inv in H as (? & ? & H & [_ ->]%mret_inv).
    apply buffer_free_inv in H as (_ & _ & _ & _ & _ & Hkeep).
    by destruct Hkeep as (_ & _ & ? & _).
  - apply period_wait_inv in H as (_ & _ & _ & _ & _ & _ & Hkeep).
    by destruct Hkeep as (_ & _ & ? & _).
  - apply drain_inv in H as (_ & _ & _ & _ & _ & _ & _ & _ & Hkeep).
    by destruct Hkeep as (_ & _ & ? & _).
  - apply bind_inv in H as (? & ? & H & [_ ->]%mret_inv).
    apply output_time_inv in H. unfold session_variables in H. by simplify_eq.
  - by apply flush_calls in H as [_ ?].
  - by apply bind_inv in H as (? & ? & [_ ->]%get_volume_inv & [_ ->]%mret_inv).
  - by apply set_volume_inv in H as (_ & _ & _ & ? & _).
Qed.

(** X24: the format of a session is fixed for its lifetime: whatever the
    playback engine asks of an open session, the session stays open and
    keeps its channel count, rate, sample size, buffer size and frame
    size. *)
Theorem session_format_fixed s0 s :
  session_open s0 ->
  reaches s0 s ->
  session_open s /\
  chan s = chan s0 /\ rate s = rate s0 /\
  buffer_bytes_per_channel s = buffer_bytes_per_channel s0 /\
  buffer_size s = buffer_size s0 /\
  bytes_per_frame s = bytes_per_frame s0.
Proof.
  intros Hopen Hreach.
  split; [by apply (reaches_session_open s0)|].
  pose proof (reaches_format _ _ Hreach) as (Hc & Hr & Hb).
  split_and!; try done.
  - clear Hc Hr Hb. induction Hreach as [|o s1 s2 _ IH Hstep]; [done|].
    apply perform_buffer_size in Hstep. by rewrite Hstep.
  - unfold bytes_per_frame. by rewrite Hc, Hb.
Qed.

(** X16: frames are counted per call: two writes count the whole frames
    of each length, which is never more than the whole frames of the two
    lengths together, and the same when the first length is a whole number
    of frames.  Bytes of a frame split between two calls are not
    counted. *)
Theorem write_audio_twice data1 len1 data2 len2 s s' :
  (write_audio data1 len1 ≫= fun _ => write_audio data2 len2) s = Ret tt s' ->
  frames_written s'
  = frames_written s + len1 ÷ bytes_per_frame s + len2 ÷ bytes_per_frame s /\
  (0 <= len1 -> 0 <= len2 -> 0 < bytes_per_frame s ->
   frames_written s'
   <= frames_written s + (len1 + len2) ÷ bytes_per_frame s /\
   (len1 mod bytes_per_frame s = 0 ->
    frames_written s'
    = frames_written s + (len1 + len2) ÷ bytes_per_frame s)).
Proof.
  intros (? & s1 & H1 & H2)%bind_inv.
  apply write_audio_inv in H1 as (Hc & _ & Hb & Hfw1 & _).
  apply write_audio_inv in H2 as (_ & _ & _ & Hfw2 & _).
  assert (Hbpf : bytes_per_frame s1 = bytes_per_frame s)
    by (unfold bytes_per_frame; by rewrite Hc, Hb).
  rewrite Hbpf in Hfw2. split; [lia|].
  intros Hlen1 Hlen2 Hframe.
  set (bpf := bytes_per_frame s) in *.
  rewrite !Z.quot_div_nonneg in * by lia.
  pose proof (Z.div_mod len1 bpf ltac:(lia)) as Hdm1.
  pose proof (Z.mod_pos_bound len1 bpf Hframe) as Hm1.
  pose proof (Z.div_mod len2 bpf ltac:(lia)) as Hdm2.
  pose proof (Z.mod_pos_bound len2 bpf Hframe) as Hm2.
  split.
  - enough (len1 / bpf + len2 / bpf <= (len1 + len2) / bpf) by lia.
    apply Z.div_le_lower_bound; [done|]. lia.
  - intros Hwhole. rewrite Hwhole, Z.add_0_r in Hdm1.
    enough ((len1 + len2) / bpf = len1 / bpf + len2 / bpf) by lia.
    rewrite Hdm1 at 1. rewrite Z.add_comm, Z.mul_comm, Z.div_add by lia. lia.
Qed.

End Session.

(** ** The properties on the simulated device *)

#[local] Existing Instance format_codes.
#[local] Existing Instance Sim.device.

(** An entry point that returns [a] returns it with the state [returned]
    picks. *)
Lemma returned_Ret `{Qt : QtMultimedia} {A} (r : result A) (a : A)
    (otherwise : state) :
  match r with Ret b _ => b = a | _ => False end ->
  r = Ret a (returned r otherwise).
Proof. destruct r; cbn; [by intros ->|done..]. Qed.

(** Settles a run on the simulated device by computing its outcome. *)
Ltac by_running := apply returned_Ret; vm_compute; reflexivity.

Lemma sim_headroom_bounded (d : Sim.output) : Sim.free d <= Sim.size d.
Proof. unfold Sim.free, Sim.used. lia. Qed.

Example sim_session_is_open : session_open sim_session.
Proof.
  unfold session_open. split; [by eexists|]. split; [by eexists|].
  split; reflexivity.
Qed.


(** The scenario on the simulated device, with 500 ms configured. *)
Lemma open_audio_s16_stereo_undefined_witness :
  aud_get_int None "output_buffer_size" (config sim_start) = 500 /\
  open_audio 3 44100 2 sim_start = Undefined.
Proof.
  split; [vm_compute; reflexivity|].
  exact (open_audio_s16_stereo_undefined sim_start).
Defined.

(** The code 99 is in no entry of the table: the open fails cleanly.  The
    simulated device rejects six channels, and the open of 16-bit samples
    at 44100 Hz on six channels is undefined rather than a failure. *)
Lemma open_audio_failure_witness :
  99 ∉ (aud_format <$> FormatMap) /\
  open_audio 99 44100 2 sim_start
  = Ret false (log (ShowError (format_unsupported 99)) sim_start) /\
  session_variables (log (ShowError (format_unsupported 99)) sim_start)
  = session_variables sim_start /\
  3 ∈ (aud_format <$> FormatMap) /\
  isFormatSupported (device_format s16_le 44100 6) = false /\
  open_audio 3 44100 6 sim_start = Undefined.
Proof.
  assert (Habsent : 99 ∉ (aud_format <$> FormatMap))
    by (apply (bool_decide_unpack _); vm_compute; exact I).
  assert (Hfound : 3 ∈ (aud_format <$> FormatMap)) by constructor 1.
  destruct (open_audio_failure 99 44100 2 sim_start) as [Hfails _].
  destruct (open_audio_failure 3 44100 6 sim_start) as [_ Hundefined].
  split; [exact Habsent|]. split; [exact (Hfails Habsent)|].
  split; [reflexivity|]. split; [exact Hfound|].
  split; [vm_compute; reflexivity|exact (Hundefined Hfound)].
Defined.

Example sim_seeked_flushes : flush 1000 sim_session = Ret tt sim_seeked.
Proof. by_running. Qed.

Example sim_playing_writes : write_audio two_frames 8 sim_seeked = Ret tt sim_playing.
Proof. by_running. Qed.

(** One second into the stream with two frames still queued: the clock
    reads 1000 ms. *)
Lemma output_time_formula_witness :
  output_time sim_playing
  = Ret 1000 (returned (output_time sim_playing) sim_playing) /\
  exists d,
    output_instance sim_playing = Some d /\
    1000 = to_int ((frames_written sim_playing
                    - (bufferSize d - bytesFree d) ÷ bytes_per_frame sim_playing)
                   * 1000 ÷ rate sim_playing).
Proof.
  split; [by_running|].
  destruct (output_time_formula sim_playing 1000
              (returned (output_time sim_playing) sim_playing))
    as (d & Hd & Hv & _); [by_running|].
  exists d. split; [exact Hd|exact Hv].
Defined.

(** A seek to 1001 ms at 44100 Hz: 44144.1 frames, truncated. *)
Lemma flush_resets_position_witness :
  output_instance sim_session
  = Some (Sim.attenuate
            (FPowf (FInt 10)
               (FDiv (FDiv (FMul (FInt 40) (FInt 0)) (FInt 100)) (FInt 20)))
            (Sim.run (Sim.resize 88200
               (Sim.create (device_format
                  {| aud_format := 3; sample_size := 16;
                     sample_type := QAudioFormat.SignedInt;
                     endian := QAudioFormat.LittleEndian |} 44100 2)))).1) /\
  int_range 1001 /\ int_range (rate sim_session) /\
  exists s',
    flush 1001 sim_session = Ret tt s' /\
    frames_written s' = 44144.
Proof.
  split; [vm_compute; reflexivity|].
  split; [by vm_compute|]. split; [by vm_compute|].
  destruct (flush_resets_position 1001 sim_session _ ltac:(vm_compute; reflexivity))
    as (s' & Hrun & Hfw & _); [by vm_compute..|].
  exists s'. split; [exact Hrun|]. rewrite Hfw. vm_compute. reflexivity.
Defined.

(** Seven bytes into a session with frames of four bytes: one frame is
    counted. *)
Lemma write_audio_advances_witness :
  write_audio (take 7 two_frames) 7 sim_session
  = Ret tt (returned (write_audio (take 7 two_frames) 7 sim_session) sim_session) /\
  frames_written (returned (write_audio (take 7 two_frames) 7 sim_session) sim_session)
  = frames_written sim_session + 7 ÷ bytes_per_frame sim_session /\
  7 ÷ bytes_per_frame sim_session = 1.
Proof.
  split; [by_running|].
  destruct (write_audio_advances (take 7 two_frames) 7 sim_session
              (returned (write_audio (take 7 two_frames) 7 sim_session) sim_session))
    as (d & io & _ & _ & _ & Hfw & _); [by_running|].
  split; [exact Hfw|]. vm_compute. reflexivity.
Defined.

Lemma frames_written_monotone_witness :
  session_open sim_session /\
  reaches sim_session sim_playing /\
  perform (op_write_audio two_frames 8) sim_playing
  = Ret tt (returned (write_audio two_frames 8 sim_playing) sim_playing) /\
  (0 <= 8 ->
   frames_written sim_playing
   <= frames_written (returned (write_audio two_frames 8 sim_playing) sim_playing)).
Proof.
  assert (Hreach : reaches sim_session sim_playing).
  { apply (reaches_step _ (op_write_audio two_frames 8) sim_seeked).
    - apply (reaches_step _ (op_flush 1000) sim_session); [apply reaches_here|].
      exact sim_seeked_flushes.
    - exact sim_playing_writes. }
  split; [exact sim_session_is_open|]. split; [exact Hreach|].
  split; [cbn [perform]; by_running|].
  apply (frames_written_monotone sim_session sim_playing
           (op_write_audio two_frames 8)
           (returned (write_audio two_frames 8 sim_playing) sim_playing)
           sim_session_is_open Hreach).
  cbn [perform]. by_running.
Defined.

(** With two frames queued, [drain] polls, waits once while the device
    plays them, polls again and returns. *)
Lemma drain_returns_when_empty_witness :
  (forall d : Sim.output, Sim.free d <= Sim.size d) /\
  drain 3 sim_playing = Ret tt (returned (drain 3 sim_playing) sim_playing) /\
  exists d waits,
    output_instance sim_playing = Some d /\ (waits <= 3)%nat /\
    output_instance (returned (drain 3 sim_playing) sim_playing)
    = Some (Nat.iter waits elapse d) /\
    bytesFree (Nat.iter waits elapse d) = bufferSize (Nat.iter waits elapse d).
Proof.
  split; [exact sim_headroom_bounded|]. split; [by_running|].
  destruct (drain_returns_when_empty 3 sim_playing
              (returned (drain 3 sim_playing) sim_playing) sim_headroom_bounded)
    as (d & waits & Hd & Hle & Hout & Hfree & _); [by_running|].
  exists d, waits.
  split; [exact Hd|]. split; [exact Hle|]. split; [exact Hout|exact Hfree].
Defined.

(** The pair (30, 70) round-trips with no session open, and with one. *)
Lemma set_volume_get_volume_witness :
  (output_instance sim_start = None \/ INT_MIN + 100 <= Z.max 30 70 <= INT_MAX) /\
  (exists s',
     set_volume {| StereoVolume.left := 30; StereoVolume.right := 70 |} sim_start
       = Ret tt s' /\
     get_volume s' = Ret {| StereoVolume.left := 30; StereoVolume.right := 70 |} s' /\
     output_instance s' = None /\ calls s' = calls sim_start) /\
  (output_instance sim_session = None \/ INT_MIN + 100 <= Z.max 30 70 <= INT_MAX) /\
  (exists s',
     set_volume {| StereoVolume.left := 30; StereoVolume.right := 70 |} sim_session
       = Ret tt s' /\
     get_volume s' = Ret {| StereoVolume.left := 30; StereoVolume.right := 70 |} s').
Proof.
  assert (Hrange : INT_MIN + 100 <= Z.max 30 70 <= INT_MAX) by (by vm_compute).
  split; [left; reflexivity|]. split.
  - destruct (set_volume_get_volume 30 70 sim_start (or_introl eq_refl))
      as (s' & Hset & Hget & _ & _ & Hclosed).
    exists s'. destruct (Hclosed eq_refl) as [Hout Hcalls]. by split_and!.
  - split; [right; exact Hrange|].
    destruct (set_volume_get_volume 30 70 sim_session (or_intror Hrange))
      as (s' & Hset & Hget & _).
    exists s'. by split.
Defined.

(** ** Further properties on the simulated device *)

Example sim_closed_closes : close_audio sim_session = Ret tt sim_closed.
Proof. by_running. Qed.

Example sim_playing_reached : reaches sim_session sim_playing.
Proof.
  eapply (reaches_step _ (op_write_audio two_frames 8) sim_seeked).
  - apply (reaches_step _ (op_flush 1000) sim_session); [apply reaches_here|].
    exact sim_seeked_flushes.
  - exact sim_playing_writes.
Qed.

(** The volumes (30, 70) and (70, 10) have the same louder channel. *)
Lemma set_volume_louder_channel_witness :
  Z.max 30 70 = Z.max 70 10 /\
  exists d s1 s2 factor,
    output_instance sim_session = Some d /\
    set_volume {| StereoVolume.left := 30; StereoVolume.right := 70 |} sim_session
    = Ret tt s1 /\
    set_volume {| StereoVolume.left := 70; StereoVolume.right := 10 |} sim_session
    = Ret tt s2 /\
    output_instance s1 = output_instance s2 /\
    calls s1 = calls sim_session ++ [SetVolume factor] /\
    calls s2 = calls sim_session ++ [SetVolume factor] /\
    factor <> FZero.
Proof.
  split; [reflexivity|].
  set (v1 := {| StereoVolume.left := 30; StereoVolume.right := 70 |}).
  set (v2 := {| StereoVolume.left := 70; StereoVolume.right := 10 |}).
  assert (H1 : set_volume v1 sim_session
               = Ret tt (returned (set_volume v1 sim_session) sim_session))
    by by_running.
  assert (H2 : set_volume v2 sim_session
               = Ret tt (returned (set_volume v2 sim_session) sim_session))
    by by_running.
  eexists. do 2 eexists.
  destruct (set_volume_louder_channel v1 v2 sim_session _ _ _
              ltac:(vm_compute; reflexivity) eq_refl H1 H2)
    as (Hout & factor & Hc1 & Hc2 & _ & Hzero).
  exists factor.
  split; [vm_compute; reflexivity|]. split; [exact H1|]. split; [exact H2|].
  split; [exact Hout|]. split; [exact Hc1|]. split; [exact Hc2|].
  intros Hfactor. apply Hzero in Hfactor. discriminate Hfactor.
Defined.

(** Setting the volume of the example session leaves its buffer length of
    500 ms in the settings. *)
Lemma set_volume_keeps_other_settings_witness :
  set_volume {| StereoVolume.left := 30; StereoVolume.right := 70 |} sim_session
  = Ret tt (returned
              (set_volume {| StereoVolume.left := 30; StereoVolume.right := 70 |}
                 sim_session) sim_session) /\
  (None, "output_buffer_size"%string) <> (qtaudio, "vol_left"%string) /\
  (None, "output_buffer_size"%string) <> (qtaudio, "vol_right"%string) /\
  aud_get_int None "output_buffer_size"
    (config (returned
               (set_volume {| StereoVolume.left := 30; StereoVolume.right := 70 |}
                  sim_session) sim_session))
  = aud_get_int None "output_buffer_size" (config sim_session).
Proof.
  assert (Hrun : set_volume {| StereoVolume.left := 30; StereoVolume.right := 70 |}
                   sim_session
                 = Ret tt (returned
                      (set_volume
                         {| StereoVolume.left := 30; StereoVolume.right := 70 |}
                         sim_session) sim_session))
    by by_running.
  split; [exact Hrun|]. split; [discriminate|]. split; [discriminate|].
  eapply (set_volume_keeps_other_settings _ _ _ None "output_buffer_size" Hrun);
    discriminate.
Defined.

(** A sample of 24 bits would take 4 bytes. *)
Lemma bytes_per_channel_even_witness :
  0 <= 3 < 2 ^ 28 /\ bytes_per_channel (8 * 3) = 3 + 3 mod 2 /\
  bytes_per_channel 24 = 4.
Proof.
  split; [lia|]. split; [|reflexivity].
  apply (bytes_per_channel_even 3). lia.
Defined.

(** Closing the example session. *)
Lemma close_audio_releases_witness :
  exists d,
    output_instance sim_session = Some d /\
    exists s',
      close_audio sim_session = Ret tt s' /\
      output_instance s' = None /\
      calls s' = calls sim_session ++ [Stop; Delete] /\
      keeps_variables sim_session s'.
Proof.
  eexists. split; [vm_compute; reflexivity|].
  eapply (close_audio_releases sim_session _). vm_compute. reflexivity.
Defined.

(** After [close_audio], a second [close_audio] and a reading of the clock
    are undefined. *)
Lemma closed_session_undefined_witness :
  output_instance sim_closed = None /\
  close_audio sim_closed = Undefined /\
  perform op_output_time sim_closed = Undefined.
Proof.
  assert (Hnull : output_instance sim_closed = None) by (vm_compute; reflexivity).
  destruct (closed_session_undefined op_output_time sim_closed Hnull)
    as [Hclose Hperform].
  split; [exact Hnull|]. split; [exact Hclose|exact (Hperform I)].
Defined.

(** A full buffer of an active device has room after one wait. *)
Lemma period_wait_returns_witness :
  exists d,
    output_instance sim_filled = Some d /\
    (1 <= 3)%nat /\
    bytesFree d = 0 /\
    bytesFree (Nat.iter 1 elapse d) <> 0 /\
    exists s', period_wait 3 sim_filled = Ret tt s'.
Proof.
  eexists. split; [vm_compute; reflexivity|]. split; [lia|].
  split; [vm_compute; reflexivity|].
  split; [by vm_compute|].
  eapply (period_wait_returns 3 sim_filled _ 1);
    [vm_compute; reflexivity|lia|by vm_compute].
Defined.

(** A full buffer of a suspended device never gets room. *)
Lemma period_wait_blocks_witness :
  exists d,
    output_instance sim_stalled = Some d /\
    (forall j, (j <= 2)%nat -> bytesFree (Nat.iter j elapse d) = 0) /\
    period_wait 2 sim_stalled = Waiting.
Proof.
  eexists. split; [vm_compute; reflexivity|].
  match goal with |- ?blocked /\ _ => assert (Hfull : blocked) end.
  { intros j Hj. destruct j as [|[|[|j]]]; [vm_compute; reflexivity..|lia]. }
  split; [exact Hfull|].
  eapply (period_wait_blocks 2 sim_stalled _); [vm_compute; reflexivity|exact Hfull].
Defined.

(** After the wait on the filled session the whole buffer of 160 bytes is
    free. *)
Lemma period_wait_then_buffer_free_witness :
  (period_wait 3 ≫= fun _ => buffer_free) sim_filled
  = Ret 160 (returned ((period_wait 3 ≫= fun _ => buffer_free) sim_filled)
               sim_filled) /\
  160 <> 0.
Proof.
  assert (Hrun : (period_wait 3 ≫= fun _ => buffer_free) sim_filled
                 = Ret 160 (returned
                      ((period_wait 3 ≫= fun _ => buffer_free) sim_filled)
                      sim_filled))
    by by_running.
  split; [exact Hrun|].
  exact (period_wait_then_buffer_free 3 sim_filled 160 _ Hrun).
Defined.

(** A write of two frames into the example session. *)
Lemma write_audio_defined_witness :
  session_open sim_session /\
  int_range 8 /\ bytes_per_frame sim_session <= INT_MAX /\
  int64_range (frames_written sim_session + 8 ÷ bytes_per_frame sim_session) /\
  exists s', write_audio two_frames 8 sim_session = Ret tt s'.
Proof.
  assert (Hlen : int_range 8) by (by vm_compute).
  assert (Hframe : bytes_per_frame sim_session <= INT_MAX) by (by vm_compute).
  assert (Hfw : int64_range (frames_written sim_session
                             + 8 ÷ bytes_per_frame sim_session))
    by (by vm_compute).
  split; [exact sim_session_is_open|]. split; [exact Hlen|].
  split; [exact Hframe|]. split; [exact Hfw|].
  exact (write_audio_defined two_frames 8 sim_session sim_session_is_open
           Hlen Hframe Hfw).
Defined.

(** Seven bytes and then five, with frames of four bytes: two frames are
    counted where the twelve bytes hold three. *)
Lemma write_audio_twice_witness :
  exists s',
    (write_audio (take 7 two_frames) 7 ≫=
     fun _ => write_audio (drop 3 two_frames) 5) sim_session = Ret tt s' /\
    frames_written s'
    = frames_written sim_session + 7 ÷ bytes_per_frame sim_session
      + 5 ÷ bytes_per_frame sim_session /\
    frames_written s' = 2 /\
    (7 + 5) ÷ bytes_per_frame sim_session = 3.
Proof.
  eexists.
  assert (Hrun : (write_audio (take 7 two_frames) 7 ≫=
                  fun _ => write_audio (drop 3 two_frames) 5) sim_session
                 = Ret tt (returned
                      ((write_audio (take 7 two_frames) 7 ≫=
                        fun _ => write_audio (drop 3 two_frames) 5) sim_session)
                      sim_session))
    by by_running.
  split; [exact Hrun|].
  destruct (write_audio_twice _ _ _ _ _ _ Hrun) as [Hfw _].
  split; [exact Hfw|]. split; vm_compute; reflexivity.
Defined.

(** With two frames queued on the active device, one wait is enough. *)
Lemma drain_returns_witness :
  exists d,
    output_instance sim_playing = Some d /\
    (1 <= 3)%nat /\
    bytesFree d < bufferSize d /\
    bufferSize (Nat.iter 1 elapse d) <= bytesFree (Nat.iter 1 elapse d) /\
    exists s', drain 3 sim_playing = Ret tt s'.
Proof.
  eexists. split; [vm_compute; reflexivity|]. split; [lia|].
  split; [by vm_compute|]. split; [by vm_compute|].
  eapply (drain_returns 3 sim_playing _ 1);
    [vm_compute; reflexivity|lia|by vm_compute].
Defined.

(** With the two frames held back by a pause, [drain] keeps waiting. *)
Lemma drain_blocks_witness :
  exists d,
    output_instance sim_paused = Some d /\
    (forall j, (j <= 2)%nat ->
       bytesFree (Nat.iter j elapse d) < bufferSize (Nat.iter j elapse d)) /\
    drain 2 sim_paused = Waiting.
Proof.
  eexists. split; [vm_compute; reflexivity|].
  match goal with |- ?blocked /\ _ => assert (Hbusy : blocked) end.
  { intros j Hj. destruct j as [|[|[|j]]]; [by vm_compute..|lia]. }
  split; [exact Hbusy|].
  eapply (drain_blocks 2 sim_paused _); [vm_compute; reflexivity|exact Hbusy].
Defined.

(** The clock of the session with two frames queued. *)
Lemma output_time_defined_witness :
  exists d,
    output_instance sim_playing = Some d /\
    0 <= bytesFree d <= bufferSize d /\ bufferSize d <= INT_MAX /\
    0 < bytes_per_frame sim_playing <= INT_MAX /\
    0 < rate sim_playing /\
    - 2 ^ 52 <= frames_written sim_playing <= 2 ^ 52 /\
    exists v s', output_time sim_playing = Ret v s'.
Proof.
  eexists. split; [vm_compute; reflexivity|].
  split; [by vm_compute|]. split; [by vm_compute|]. split; [by vm_compute|].
  split; [by vm_compute|]. split; [by vm_compute|].
  eapply (output_time_defined sim_playing _);
    [vm_compute; reflexivity|by vm_compute..].
Defined.

(** One second and two frames written, two frames queued: the clock reads
    1000 ms, and the frames written amount to 1000 ms as well. *)
Lemma output_time_between_witness :
  exists d,
    output_time sim_playing
    = Ret 1000 (returned (output_time sim_playing) sim_playing) /\
    output_instance sim_playing = Some d /\
    bytesFree d <= bufferSize d /\
    0 < bytes_per_frame sim_playing /\ 0 < rate sim_playing /\
    (bufferSize d - bytesFree d) ÷ bytes_per_frame sim_playing
    <= frames_written sim_playing /\
    frames_written sim_playing * 1000 ÷ rate sim_playing <= INT_MAX /\
    0 <= 1000 <= frames_written sim_playing * 1000 ÷ rate sim_playing.
Proof.
  eexists.
  assert (Hrun : output_time sim_playing
                 = Ret 1000 (returned (output_time sim_playing) sim_playing))
    by by_running.
  split; [exact Hrun|]. split; [vm_compute; reflexivity|].
  split; [by vm_compute|]. split; [by vm_compute|]. split; [by vm_compute|].
  split; [by vm_compute|]. split; [by vm_compute|].
  eapply (output_time_between sim_playing 1000 _ _ Hrun);
    [vm_compute; reflexivity|by vm_compute..].
Defined.

(** A seek to 1001 ms at 44100 Hz is not a whole number of frames: the
    clock reads 1000 or 1001. *)
Lemma flush_then_output_time_witness :
  exists d,
    output_instance sim_session = Some d /\
    bytesFree (start (reset d)).1 = bufferSize (start (reset d)).1 /\
    0 <= 1001 <= INT_MAX /\
    1000 <= rate sim_session <= INT_MAX /\
    int_range (bytes_per_frame sim_session) /\ bytes_per_frame sim_session <> 0 /\
    exists v s',
      (flush 1001 ≫= fun _ => output_time) sim_session = Ret v s' /\
      1001 - 1 <= v <= 1001.
Proof.
  eexists. split; [vm_compute; reflexivity|].
  split; [vm_compute; reflexivity|].
  split; [by vm_compute|]. split; [by vm_compute|]. split; [by vm_compute|].
  split; [by vm_compute|].
  destruct (flush_then_output_time 1001 sim_session _
              ltac:(vm_compute; reflexivity))
    as (v & s' & Hrun & Hv & _); [vm_compute; reflexivity|by vm_compute..|].
  exists v, s'. split; [exact Hrun|exact Hv].
Defined.


(** The example session after a seek and a write. *)
Lemma session_format_fixed_witness :
  session_open sim_session /\
  reaches sim_session sim_playing /\
  session_open sim_playing /\
  chan sim_playing = chan sim_session /\ rate sim_playing = rate sim_session /\
  buffer_bytes_per_channel sim_playing = buffer_bytes_per_channel sim_session /\
  buffer_size sim_playing = buffer_size sim_session /\
  bytes_per_frame sim_playing = bytes_per_frame sim_session.
Proof.
  split; [exact sim_session_is_open|]. split; [exact sim_playing_reached|].
  exact (session_format_fixed sim_session sim_playing
           sim_session_is_open sim_playing_reached).
Defined.

(** A write of two frames and a reading of the clock move the counter of
    the example session from 0 to 2. *)
Lemma frames_written_never_decreases_witness :
  session_open sim_session /\
  exists s',
    plays sim_session s' /\
    frames_written sim_session <= frames_written s' /\
    frames_written s' = 2.
Proof.
  split; [exact sim_session_is_open|].
  set (s1 := returned (write_audio two_frames 8 sim_session) sim_session).
  set (s2 := returned (perform op_output_time s1) s1).
  assert (Hplays : plays sim_session s2).
  { apply (plays_step _ op_output_time s1); [|exact I|].
    - apply (plays_step _ (op_write_audio two_frames 8) sim_session);
        [apply plays_here|by vm_compute|].
      cbn [perform]. by_running.
    - by_running. }
  exists s2. split; [exact Hplays|].
  split; [|vm_compute; reflexivity].
  exact (frames_written_never_decreases sim_session s2
           sim_session_is_open Hplays).
Defined.
